(** * BasicFolderCompare: a shallow embedding of [compare_projects.py]

    The development follows the source file top to bottom:
    - Python values used by the program (strings, exceptions, paths);
    - the library calls the program makes: [Path.suffix], [str.lower],
      [os.walk], [open(..., errors='ignore').readlines()] and
      [difflib.unified_diff] are modelled from CPython 3.11;
      [fnmatch.fnmatch], whose result the program only passes on, is a
      section variable, and so is the diff function wherever a property
      holds of any;
    - the methods of [ProjectComparator]: [_should_ignore],
      [_get_relative_files], [_compare_file_content], [compare];
    - the properties of the specification, C1 to C10, one theorem each.

    A Python [str] is represented by its UTF-8 encoding, a Rocq [string];
    two Python strings are equal iff their encodings are. *)

From Stdlib Require Import ZArith Ascii String List Lia DecimalString.
From Stdlib Require Import Sorting.Mergesort Sorting.Permutation Sorting.Sorted.
From stdpp Require Import base tactics option list strings gmap sets.

Open Scope Z_scope.

(** ** Python strings *)

Module PyStr.

(** [len(s)] *)
Definition len (s : string) : Z := Z.of_nat (String.length s).

(** [s.rfind(c)] for a one-character [c]: the highest index holding [c],
    or [-1].  [pos] is the index of the first character of [s]. *)
Fixpoint rfind_from (c : ascii) (s : string) (pos : Z) : Z :=
  match s with
  | EmptyString => -1
  | String a s' =>
      let r := rfind_from c s' (pos + 1) in
      if 0 <=? r then r else if Ascii.eqb a c then pos else -1
  end.

Definition rfind (c : ascii) (s : string) : Z := rfind_from c s 0.

(** [s[i:]] for [0 <= i]. *)
Fixpoint drop (n : nat) (s : string) : string :=
  match n, s with
  | O, _ => s
  | S _, EmptyString => EmptyString
  | S n', String _ s' => drop n' s'
  end.

Definition slice_from (s : string) (i : Z) : string := drop (Z.to_nat i) s.

(** [str.lower] on the ASCII range: [A]..[Z] go to [a]..[z].  Bytes of
    multi-byte characters are left as they are. *)
Definition lower_char (a : ascii) : ascii :=
  let n := nat_of_ascii a in
  if ((65 <=? n) && (n <=? 90))%nat then ascii_of_nat (n + 32) else a.

Fixpoint lower (s : string) : string :=
  match s with
  | EmptyString => EmptyString
  | String a s' => String (lower_char a) (lower s')
  end.

(** [c in s] for a one-character [c]. *)
Fixpoint contains (c : ascii) (s : string) : bool :=
  match s with
  | EmptyString => false
  | String a s' => Ascii.eqb a c || contains c s'
  end.

(** [s.startswith(c)] for a one-character [c]. *)
Definition startswith (c : ascii) (s : string) : bool :=
  match s with
  | String a _ => Ascii.eqb a c
  | EmptyString => false
  end.

End PyStr.

(** ** Exceptions

    Only [str(e)] of a raised exception is ever looked at. *)

Inductive exn := Exception (msg : string).

Definition exn_str (e : exn) : string := match e with Exception msg => msg end.

Inductive result (A : Type) :=
| Ok (a : A)
| Raise (e : exn).

Arguments Ok {A} a.
Arguments Raise {A} e.

(** Sequencing: an exception raised by [m] skips the rest of the block. *)
#[global] Instance result_bind : MBind result := fun A B k m =>
  match m with
  | Ok a => k a
  | Raise e => Raise e
  end.

(** [try: body  except Exception as e: handler(e)] *)
Definition try_except {A} (body : result A) (handler : exn -> result A)
  : result A :=
  match body with
  | Ok a => Ok a
  | Raise e => handler e
  end.

(** A [for] loop whose body may raise: the first exception ends it. *)
Fixpoint for_each {S X} (body : S -> X -> result S) (xs : list X) (s : S)
  : result S :=
  match xs with
  | [] => Ok s
  | x :: xs' => s' ← body s x; for_each body xs' s'
  end.

(** ** Paths

    A [pathlib.Path] relative to the scanned root is the list of its
    components.  [str(path)] joins them with the separator of the platform;
    the POSIX one is taken here. *)

Definition path := list string.

Definition sep : string := "/".

Fixpoint path_str (p : path) : string :=
  match p with
  | [] => ""
  | c :: rest =>
      match rest with
      | [] => c
      | _ :: _ => c +:+ sep +:+ path_str rest
      end
  end.

(** [root / rel_path] for an absolute root given as a string. *)
Definition path_join (root rel_path : string) : string :=
  if bool_decide (root = sep) then sep +:+ rel_path
  else root +:+ sep +:+ rel_path.

(** [Path.name]: the final component. *)
Definition path_name (p : path) : string := List.last p "".

(** [Path.suffix] (pathlib, CPython 3.11):
<<
    name = self.name
    i = name.rfind('.')
    if 0 < i < len(name) - 1:
        return name[i:]
    else:
        return ''
>> *)
Definition path_suffix (p : path) : string :=
  let name := path_name p in
  let i := PyStr.rfind "." name in
  if (0 <? i) && (i <? PyStr.len name - 1) then PyStr.slice_from name i
  else "".

(** ** The file system

    What [os.walk] can see of a directory: entries that are directories
    ([DirEntry.is_dir()] follows symbolic links, so a link to a directory is
    one) and entries that are not (regular files, links to files, dangling
    links, devices, pipes, sockets). *)

Inductive file_kind :=
| Regular
| SymlinkToFile
| DanglingSymlink
| Device
| Fifo
| Socket.

#[warnings="-register-all"]
Inductive node :=
| File (kind : file_kind) (name : string)
| Dir (is_link : bool) (name : string) (entries : list node).

Definition node_name (n : node) : string :=
  match n with
  | File _ name => name
  | Dir _ name _ => name
  end.

(** [entry.is_dir()] *)
Definition is_dir (n : node) : bool :=
  match n with
  | File _ _ => false
  | Dir _ _ _ => true
  end.

(** The two lists [os.walk] builds from one [scandir]. *)
Definition dirs_of (entries : list node) : list string :=
  map node_name (List.filter is_dir entries).

Definition nondirs_of (entries : list node) : list string :=
  map node_name (List.filter (fun n => negb (is_dir n)) entries).

(** One item produced by [os.walk]: [(root, dirs, filenames)], [root]
    relative to the directory the walk started from. *)
Definition walk_item : Type := path * list string * list string.

(** [os.walk(top)], top-down, [followlinks=False], [onerror=None].  After
    each item the caller may shrink [dirs] in place; the caller of this
    program keeps the names satisfying [keep].  [_walk keep top n] is the
    part of the loop [for dirname in dirs] run for the entry [n] of [top]:
<<
    new_path = join(top, dirname)
    if followlinks or not islink(new_path):
        yield from _walk(new_path, ...)
>> *)
Fixpoint _walk (keep : string -> bool) (top : path) (n : node)
  : list walk_item :=
  match n with
  | File _ _ => []
  | Dir is_link dirname entries =>
      if keep dirname then
        let new_path := top ++ [dirname] in
        if is_link then []
        else (new_path, dirs_of entries, nondirs_of entries)
               :: flat_map (_walk keep new_path) entries
      else []
  end.

Definition os_walk (keep : string -> bool) (entries : list node)
  : list walk_item :=
  ([], dirs_of entries, nondirs_of entries)
    :: flat_map (_walk keep []) entries.

(** ** Reading a text file

    [open(f, 'r', encoding='utf-8', errors=...)] then [readlines()]: decode,
    translate newlines (universal newlines mode), split after each newline. *)

Inductive error_handler := Strict | Ignore | Replace.

(** What the decoder finds at the head of the input: a well-formed sequence
    of [n] bytes, or an error covering [n] bytes. *)
Inductive utf8_head :=
| Valid (n : nat)
| Invalid (n : nat).

Definition byte_val (a : ascii) : Z := Z.of_nat (nat_of_ascii a).

Definition is_continuation (b : Z) : bool := (0x80 <=? b) && (b <? 0xC0).

(** The UTF-8 decoder of CPython ([stringlib/codecs.h]): [ch] is the byte at
    the head, [rest] what follows it up to the end of the data. *)
Definition utf8_classify (ch : Z) (rest : list Z) : utf8_head :=
  if ch <? 0x80 then Valid 1
  else if ch <? 0xC2 then Invalid 1
  else if ch <? 0xE0 then
    match rest with
    | [] => Invalid 1
    | ch2 :: _ => if is_continuation ch2 then Valid 2 else Invalid 1
    end
  else if ch <? 0xF0 then
    match rest with
    | [] => Invalid 1
    | ch2 :: rest2 =>
        if negb (is_continuation ch2)
           || (if ch2 <? 0xA0 then ch =? 0xE0 else ch =? 0xED)
        then Invalid 1
        else match rest2 with
             | [] => Invalid 2
             | ch3 :: _ => if is_continuation ch3 then Valid 3 else Invalid 2
             end
    end
  else if ch <? 0xF5 then
    match rest with
    | [] => Invalid 1
    | ch2 :: rest2 =>
        if negb (is_continuation ch2)
           || (if ch2 <? 0x90 then ch =? 0xF0 else ch =? 0xF4)
        then Invalid 1
        else match rest2 with
             | [] => Invalid 2
             | ch3 :: rest3 =>
                 if negb (is_continuation ch3) then Invalid 2
                 else match rest3 with
                      | [] => Invalid 3
                      | ch4 :: _ =>
                          if is_continuation ch4 then Valid 4 else Invalid 3
                      end
             end
    end
  else Invalid 1.

Fixpoint bytes_of (s : string) : list Z :=
  match s with
  | EmptyString => []
  | String a s' => byte_val a :: bytes_of s'
  end.

(** Bytes of the sequence at hand still to be copied or skipped. *)
Inductive pending :=
| Copy (k : nat)
| Skip (k : nat).

(** U+FFFD, the replacement character, in UTF-8. *)
Definition replacement_char : string :=
  String (ascii_of_nat 239) (String (ascii_of_nat 191)
    (String (ascii_of_nat 189) EmptyString)).

(** [bytes.decode('utf-8', errors)]. *)
Fixpoint utf8_decode_from (errors : error_handler) (p : pending) (s : string)
  : result string :=
  match s with
  | EmptyString => Ok EmptyString
  | String b s' =>
      match p with
      | Copy (S k) =>
          t ← utf8_decode_from errors (Copy k) s'; Ok (String b t)
      | Skip (S k) => utf8_decode_from errors (Skip k) s'
      | _ =>
          match utf8_classify (byte_val b) (bytes_of s') with
          | Valid n =>
              t ← utf8_decode_from errors (Copy (Nat.pred n)) s';
              Ok (String b t)
          | Invalid n =>
              match errors with
              | Strict =>
                  Raise (Exception "'utf-8' codec can't decode bytes")
              | Ignore => utf8_decode_from errors (Skip (Nat.pred n)) s'
              | Replace =>
                  t ← utf8_decode_from errors (Skip (Nat.pred n)) s';
                  Ok (replacement_char +:+ t)
              end
          end
      end
  end.

Definition utf8_decode (errors : error_handler) (s : string) : result string :=
  utf8_decode_from errors (Copy 0) s.

Definition CR : ascii := ascii_of_nat 13.
Definition LF : ascii := ascii_of_nat 10.

(** Universal newlines: ["\r\n"] and a lone ["\r"] are read as ["\n"]. *)
Fixpoint universal_newlines (s : string) : string :=
  match s with
  | EmptyString => EmptyString
  | String c s' =>
      if Ascii.eqb c CR then
        match s' with
        | String c' s'' =>
            if Ascii.eqb c' LF then String LF (universal_newlines s'')
            else String LF (universal_newlines s')
        | EmptyString => String LF EmptyString
        end
      else String c (universal_newlines s')
  end.

(** [readlines()]: every line keeps its newline; the last one may lack it. *)
Fixpoint split_lines (s : string) : list string :=
  match s with
  | EmptyString => []
  | String c s' =>
      if Ascii.eqb c LF then String c EmptyString :: split_lines s'
      else match split_lines s' with
           | [] => [String c EmptyString]
           | l :: ls => String c l :: ls
           end
  end.

(** [with open(f, 'r', encoding='utf-8', errors=errors) as h: h.readlines()]
    where [raw] is what opening and reading the bytes of [f] gives. *)
Definition readlines (errors : error_handler) (raw : result string)
  : result (list string) :=
  data ← raw;
  text ← utf8_decode errors data;
  Ok (split_lines (universal_newlines text)).

(** ** [difflib]

    [difflib.unified_diff] as the program calls it ([n=3], [lineterm=''], no
    file dates), on [SequenceMatcher(None, a, b)]: no junk predicate, the
    popularity heuristic on. *)

Module Difflib.

(** [len(l)], [l[i]] for [0 <= i < len(l)], and [l[i:j]]. *)
Definition len (l : list string) : Z := Z.of_nat (length l).

Definition item (l : list string) (i : Z) : string :=
  default "" (l !! Z.to_nat i).

Definition slice (l : list string) (i j : Z) : list string :=
  take (Z.to_nat (j - i)) (drop (Z.to_nat i) l).

(** [__chain_b]: [b2j[elt]] lists, in increasing order, the indices of [b]
    holding [elt]; the entries of popular elements are deleted. *)
Fixpoint indices_from (elt : string) (b : list string) (pos : Z) : list Z :=
  match b with
  | [] => []
  | x :: b' =>
      if String.eqb x elt then pos :: indices_from elt b' (pos + 1)
      else indices_from elt b' (pos + 1)
  end.

Definition is_popular (b : list string) (elt : string) : bool :=
  let n := len b in
  (200 <=? n)
  && (n / 100 + 1 <? Z.of_nat (length (indices_from elt b 0))).

(** [b2j.get(elt, [])] *)
Definition b2j (b : list string) (elt : string) : list Z :=
  if is_popular b elt then [] else indices_from elt b 0.

(** [isjunk] is [None]: the set [bjunk] stays empty. *)
Definition isbjunk (elt : string) : bool := false.

Definition Match : Type := Z * Z * Z.

(** The inner loop of [find_longest_match]: [for j in b2j.get(a[i], [])]. *)
Fixpoint scan_row (j2len : gmap Z Z) (i blo bhi : Z) (js : list Z)
  (newj2len : gmap Z Z) (best : Match) : gmap Z Z * Match :=
  match js with
  | [] => (newj2len, best)
  | j :: js' =>
      if j <? blo then scan_row j2len i blo bhi js' newj2len best
      else if bhi <=? j then (newj2len, best)
      else
        let k := default 0 (j2len !! (j - 1)) + 1 in
        let '(_, _, bestsize) := best in
        scan_row j2len i blo bhi js' (<[j := k]> newj2len)
          (if bestsize <? k then (i - k + 1, j - k + 1, k) else best)
  end.

(** The outer loop: [for i in range(alo, ahi)], [count] rows from [i] on. *)
Fixpoint scan_rows (a b : list string) (blo bhi : Z) (count : nat) (i : Z)
  (j2len : gmap Z Z) (best : Match) : Match :=
  match count with
  | O => best
  | S count' =>
      let '(newj2len, best') :=
        scan_row j2len i blo bhi (b2j b (item a i)) ∅ best in
      scan_rows a b blo bhi count' (i + 1) newj2len best'
  end.

(** The [while] loops extending the match downwards; [junk] tells which
    elements the loop accepts.  Each turn lowers [besti], which stays above
    [alo]: [steps] is the distance between the two on entry. *)
Fixpoint extend_down (a b : list string) (alo blo : Z) (junk : bool)
  (steps : nat) (best : Match) : Match :=
  match steps with
  | O => best
  | S steps' =>
      let '(besti, bestj, bestsize) := best in
      if (alo <? besti) && (blo <? bestj)
         && Bool.eqb (isbjunk (item b (bestj - 1))) junk
         && String.eqb (item a (besti - 1)) (item b (bestj - 1))
      then extend_down a b alo blo junk steps'
             (besti - 1, bestj - 1, bestsize + 1)
      else best
  end.

(** The [while] loops extending the match upwards; each turn raises
    [besti + bestsize], which stays below [ahi]. *)
Fixpoint extend_up (a b : list string) (ahi bhi : Z) (junk : bool)
  (steps : nat) (best : Match) : Match :=
  match steps with
  | O => best
  | S steps' =>
      let '(besti, bestj, bestsize) := best in
      if (besti + bestsize <? ahi) && (bestj + bestsize <? bhi)
         && Bool.eqb (isbjunk (item b (bestj + bestsize))) junk
         && String.eqb (item a (besti + bestsize)) (item b (bestj + bestsize))
      then extend_up a b ahi bhi junk steps' (besti, bestj, bestsize + 1)
      else best
  end.

Definition down_steps (alo : Z) (best : Match) : nat :=
  let '(besti, _, _) := best in Z.to_nat (besti - alo).

Definition up_steps (ahi : Z) (best : Match) : nat :=
  let '(besti, _, bestsize) := best in Z.to_nat (ahi - (besti + bestsize)).

Definition find_longest_match (a b : list string) (alo ahi blo bhi : Z)
  : Match :=
  let best0 := (alo, blo, 0) in
  let best1 := scan_rows a b blo bhi (Z.to_nat (ahi - alo)) alo ∅ best0 in
  let best2 := extend_down a b alo blo false (down_steps alo best1) best1 in
  let best3 := extend_up a b ahi bhi false (up_steps ahi best2) best2 in
  let best4 := extend_down a b alo blo true (down_steps alo best3) best3 in
  extend_up a b ahi bhi true (up_steps ahi best4) best4.

(** The [while queue:] loop of [get_matching_blocks].  The queue is a stack,
    its top at the head.  A turn pops a block and pushes at most two, that
    are shorter by the match between them: [2 * len(a) + 1] turns empty the
    queue. *)
Fixpoint match_blocks (a b : list string) (turns : nat)
  (queue : list (Z * Z * Z * Z)) (matching_blocks : list Match) : list Match :=
  match turns with
  | O => matching_blocks
  | S turns' =>
      match queue with
      | [] => matching_blocks
      | (alo, ahi, blo, bhi) :: queue' =>
          let '(i, j, k) := find_longest_match a b alo ahi blo bhi in
          if k =? 0 then match_blocks a b turns' queue' matching_blocks
          else
            let queue1 :=
              if (alo <? i) && (blo <? j) then (alo, i, blo, j) :: queue'
              else queue' in
            let queue2 :=
              if (i + k <? ahi) && (j + k <? bhi)
              then (i + k, ahi, j + k, bhi) :: queue1
              else queue1 in
            match_blocks a b turns' queue2 (matching_blocks ++ [(i, j, k)])
      end
  end.

(** [matching_blocks.sort()]: tuples of integers are ordered
    lexicographically. *)
Definition match_leb (x y : Match) : bool :=
  let '(i1, j1, k1) := x in
  let '(i2, j2, k2) := y in
  (i1 <? i2) || ((i1 =? i2) && ((j1 <? j2) || ((j1 =? j2) && (k1 <=? k2)))).

Fixpoint insert_match (x : Match) (l : list Match) : list Match :=
  match l with
  | [] => [x]
  | y :: l' => if match_leb x y then x :: l else y :: insert_match x l'
  end.

Definition sort_matches (l : list Match) : list Match :=
  fold_right insert_match [] l.

(** The loop of [get_matching_blocks] that collapses adjacent blocks. *)
Definition collapse_step (st : Z * Z * Z * list Match) (block : Match)
  : Z * Z * Z * list Match :=
  let '(i1, j1, k1, non_adjacent) := st in
  let '(i2, j2, k2) := block in
  if (i1 + k1 =? i2) && (j1 + k1 =? j2) then (i1, j1, k1 + k2, non_adjacent)
  else (i2, j2, k2,
        if k1 =? 0 then non_adjacent else non_adjacent ++ [(i1, j1, k1)]).

Definition get_matching_blocks (a b : list string) : list Match :=
  let la := len a in
  let lb := len b in
  let matching_blocks :=
    sort_matches
      (match_blocks a b (2 * length a + 1) [(0, la, 0, lb)] []) in
  let '(i1, j1, k1, non_adjacent) :=
    fold_left collapse_step matching_blocks (0, 0, 0, []) in
  (if k1 =? 0 then non_adjacent else non_adjacent ++ [(i1, j1, k1)])
    ++ [(la, lb, 0)].

Inductive tag := Replace | Delete | Insert | Equal.

Definition opcode : Type := tag * Z * Z * Z * Z.

Definition is_equal (t : tag) : bool :=
  match t with Equal => true | _ => false end.

(** The loop of [get_opcodes]. *)
Definition opcode_step (st : Z * Z * list opcode) (block : Match)
  : Z * Z * list opcode :=
  let '(i, j, answer) := st in
  let '(ai, bj, size) := block in
  let answer1 :=
    if (i <? ai) && (j <? bj) then answer ++ [(Replace, i, ai, j, bj)]
    else if i <? ai then answer ++ [(Delete, i, ai, j, bj)]
    else if j <? bj then answer ++ [(Insert, i, ai, j, bj)]
    else answer in
  let i' := ai + size in
  let j' := bj + size in
  (i', j',
   if size =? 0 then answer1 else answer1 ++ [(Equal, ai, i', bj, j')]).

Definition get_opcodes (a b : list string) : list opcode :=
  let '(_, _, answer) :=
    fold_left opcode_step (get_matching_blocks a b) (0, 0, []) in
  answer.

(** [codes[0] = tag, max(i1, i2-n), i2, max(j1, j2-n), j2] when the first
    opcode is an [equal]. *)
Definition fix_leading (n : Z) (codes : list opcode) : list opcode :=
  match codes with
  | (Equal, i1, i2, j1, j2) :: rest =>
      (Equal, Z.max i1 (i2 - n), i2, Z.max j1 (j2 - n), j2) :: rest
  | _ => codes
  end.

(** [codes[-1] = tag, i1, min(i2, i1+n), j1, min(j2, j1+n)] when the last
    opcode is an [equal]. *)
Definition fix_trailing (n : Z) (codes : list opcode) : list opcode :=
  match List.rev codes with
  | (Equal, i1, i2, j1, j2) :: rest =>
      List.rev rest ++ [(Equal, i1, Z.min i2 (i1 + n), j1, Z.min j2 (j1 + n))]
  | _ => codes
  end.

(** The loop of [get_grouped_opcodes]: the group being built and the groups
    yielded so far. *)
Definition group_step (n : Z) (st : list opcode * list (list opcode))
  (code : opcode) : list opcode * list (list opcode) :=
  let '(group, yielded) := st in
  let '(t, i1, i2, j1, j2) := code in
  if is_equal t && (n + n <? i2 - i1) then
    ([(t, Z.max i1 (i2 - n), i2, Z.max j1 (j2 - n), j2)],
     yielded
       ++ [group ++ [(t, i1, Z.min i2 (i1 + n), j1, Z.min j2 (j1 + n))]])
  else (group ++ [code], yielded).

Definition get_grouped_opcodes (a b : list string) (n : Z)
  : list (list opcode) :=
  let codes := get_opcodes a b in
  let codes := match codes with [] => [(Equal, 0, 1, 0, 1)] | _ => codes end in
  let codes := fix_trailing n (fix_leading n codes) in
  let '(group, yielded) := fold_left (group_step n) codes ([], []) in
  match group with
  | [] => yielded
  | [(Equal, _, _, _, _)] => yielded
  | _ => yielded ++ [group]
  end.

Definition decimal (z : Z) : string := NilZero.string_of_int (Z.to_int z).

(** [_format_range_unified(start, stop)] *)
Definition format_range_unified (start stop : Z) : string :=
  let beginning := start + 1 in
  let length := stop - start in
  if length =? 1 then decimal beginning
  else decimal (if length =? 0 then beginning - 1 else beginning)
       +:+ "," +:+ decimal length.

Definition first_code (group : list opcode) : opcode :=
  List.hd (Equal, 0, 0, 0, 0) group.

Definition last_code (group : list opcode) : opcode :=
  List.last group (Equal, 0, 0, 0, 0).

(** The lines one opcode of a group gives. *)
Definition code_lines (a b : list string) (code : opcode) : list string :=
  let '(t, i1, i2, j1, j2) := code in
  match t with
  | Equal => map (String.append " ") (slice a i1 i2)
  | Replace =>
      map (String.append "-") (slice a i1 i2)
      ++ map (String.append "+") (slice b j1 j2)
  | Delete => map (String.append "-") (slice a i1 i2)
  | Insert => map (String.append "+") (slice b j1 j2)
  end.

(** The lines of one group: the hunk header, then the lines of its
    opcodes. *)
Definition group_lines (a b : list string) (group : list opcode)
  : list string :=
  let '(_, f1, _, f3, _) := first_code group in
  let '(_, _, l2, _, l4) := last_code group in
  ("@@ -" +:+ format_range_unified f1 l2
     +:+ " +" +:+ format_range_unified f3 l4 +:+ " @@")
    :: flat_map (code_lines a b) group.

(** [list(unified_diff(a, b, fromfile=f, tofile=t, lineterm=''))] *)
Definition unified_diff (a b : list string) (fromfile tofile : string)
  : list string :=
  match get_grouped_opcodes a b 3 with
  | [] => []
  | groups =>
      ("--- " +:+ fromfile) :: ("+++ " +:+ tofile)
        :: flat_map (group_lines a b) groups
  end.

(** *** Vocabulary for reasoning about [find_longest_match] *)

(** Length of the run of unpopular lines of [a] that ends at index [i]. *)
Fixpoint stretch_nat (a : list string) (i : nat) : Z :=
  if is_popular a (item a (Z.of_nat i)) then 0
  else 1 + match i with O => 0 | S i' => stretch_nat a i' end.

Definition stretch (a : list string) (i : Z) : Z :=
  if i <? 0 then 0 else stretch_nat a (Z.to_nat i).

(** What the map [j2len] holds once row [i] is done: lengths bounded by the
    runs of unpopular lines ending at the two indices, and on the diagonal
    the run itself. *)
Definition row_ok (a : list string) (i : Z) (j2len : gmap Z Z) : Prop :=
  (forall j v, j2len !! j = Some v -> v <= stretch a i /\ v <= stretch a j)
  /\ default 0 (j2len !! i) = stretch a i.

(** What the best match is once the rows below [i] are done: it lies on the
    diagonal, within the rows done, and is as long as every run seen. *)
Definition best_ok (a : list string) (i : Z) (best : Match) : Prop :=
  let '(besti, bestj, bestsize) := best in
  besti = bestj /\ 0 <= besti /\ 0 <= bestsize /\ besti + bestsize <= i
  /\ forall i', 0 <= i' < i -> stretch a i' <= bestsize.

(** A match lies within the block it was searched in. *)
Definition within (alo ahi blo bhi : Z) (best : Match) : Prop :=
  let '(besti, bestj, bestsize) := best in
  alo <= besti /\ blo <= bestj /\ 0 <= bestsize
  /\ besti + bestsize <= ahi /\ bestj + bestsize <= bhi.

(** The turns a queue of blocks can still take: a block of [n] lines of [a]
    takes one turn and leaves blocks of fewer than [n] lines in all. *)
Fixpoint queue_weight (queue : list (Z * Z * Z * Z)) : Z :=
  match queue with
  | [] => 0
  | (alo, ahi, _, _) :: queue' => 2 * (ahi - alo) + 1 + queue_weight queue'
  end.

Definition block_ok (block : Z * Z * Z * Z) : Prop :=
  let '(alo, ahi, blo, bhi) := block in alo <= ahi /\ blo <= bhi.

End Difflib.

(** ** [sorted] on strings

    Python orders strings by code point, which on UTF-8 encodings is the
    order of the bytes. *)

Module StrOrder <: Orders.TotalLeBool.
Definition t := string.
Definition leb : string -> string -> bool := String.leb.
Lemma leb_total : forall x y : string, leb x y = true \/ leb y x = true.
Proof. intros x y. apply String.leb_total. Qed.
End StrOrder.

Module StrSort := Sort StrOrder.

Definition sorted (s : gset string) : list string :=
  StrSort.sort (elements s).

(** ** The comparator object

    The fields [__init__] sets from its arguments: the two resolved roots and
    the four option lists, each turned into a [set]. *)

Record ProjectComparator := {
  path1 : string;
  path2 : string;
  ignore_ext : gset string;
  only_ext : gset string;
  ignore_dirs : gset string;
  ignore_files : gset string;
}.

(** The result fields, which [compare] assigns. *)
Record Results := {
  only_in_path1 : gset string;
  only_in_path2 : gset string;
  diff_files : gmap string (list string);
}.

(** Their value after [__init__]. *)
Definition init_results : Results :=
  {| only_in_path1 := ∅; only_in_path2 := ∅; diff_files := ∅ |}.

(** The disk as the program meets it: what is under a root when it is
    walked, and what opening and reading a file gives when the comparison
    gets to it (its bytes, or the [OSError] raised). *)
Record FileSystem := {
  fs_entries : string -> list node;
  fs_read : string -> result string;
}.

(** Truth value of a Python set: non-empty. *)
Definition set_truthy (s : gset string) : bool := bool_decide (s ≠ ∅).

(** [x in s] *)
Definition set_mem (x : string) (s : gset string) : bool := bool_decide (x ∈ s).

(** Truth value of an [Optional[List[str]]]. *)
Definition diff_truthy (diff : option (list string)) : bool :=
  match diff with
  | Some (_ :: _) => true
  | _ => false
  end.

(** The line of line 104: [f"ERROR: File could not be compared - {str(e)}"]. *)
Definition error_line (e : exn) : string :=
  "ERROR: File could not be compared - " +:+ exn_str e.

Section Program.

(** [fnmatch.fnmatch(filename, pattern)] *)
Variable fnmatch : string -> string -> bool.

(** [list(difflib.unified_diff(a, b, fromfile=f, tofile=t, lineterm=''))]:
    any function here, [Difflib.unified_diff] where what it computes
    matters. *)
Variable unified_diff :
  list string -> list string -> string -> string -> list string.

Variable fs : FileSystem.

Variable self : ProjectComparator.

(** The extension the filter looks at: [file_path.suffix.lower()]. *)
Definition file_ext (file_path : path) : string :=
  PyStr.lower (path_suffix file_path).

(** [_should_ignore], lines 41-59. *)
Definition _should_ignore (file_path : path) : bool :=
  let ext := file_ext file_path in
  let filename := path_name file_path in
  if existsb (fun pattern => fnmatch filename pattern)
       (elements (ignore_files self))
  then true
  else if set_truthy (only_ext self) && negb (set_mem ext (only_ext self))
  then true
  else if set_mem ext (ignore_ext self) then true
  else false.

(** The in-place pruning of line 66:
    [dirs[:] = [d for d in dirs if d not in self.ignore_dirs]]. *)
Definition keep_dir (d : string) : bool := negb (set_mem d (ignore_dirs self)).

(** The inner loop of [_get_relative_files], lines 68-77; [root] is relative
    to [base_path], so [full_path.relative_to(base_path)] is
    [root ++ [filename]]. *)
Definition add_files (files : gset string) (item : walk_item) : gset string :=
  let '(root, _, filenames) := item in
  fold_left
    (fun files filename =>
       let full_path := root ++ [filename] in
       if _should_ignore full_path then files
       else {[ path_str full_path ]} ∪ files)
    filenames files.

(** [_get_relative_files], lines 61-78. *)
Definition _get_relative_files (base_path : string) : gset string :=
  fold_left add_files (os_walk keep_dir (fs_entries fs base_path)) ∅.

(** [_compare_file_content], lines 80-104. *)
Definition _compare_file_content (rel_path : string)
  : result (option (list string)) :=
  let file1 := path_join (path1 self) rel_path in
  let file2 := path_join (path2 self) rel_path in
  try_except
    (lines1 ← readlines Ignore (fs_read fs file1);
     lines2 ← readlines Ignore (fs_read fs file2);
     let diff :=
       unified_diff lines1 lines2
         ("Project1/" +:+ rel_path) ("Project2/" +:+ rel_path) in
     Ok (if (0 <? Z.of_nat (length diff)) then Some diff else None))
    (fun e => Ok (Some [error_line e])).

(** The body of the loop of [compare], lines 125-127. *)
Definition compare_one (st : Results) (rel_path : string) : result Results :=
  diff ← _compare_file_content rel_path;
  match diff with
  | Some d =>
      if diff_truthy diff then
        Ok {| only_in_path1 := only_in_path1 st;
              only_in_path2 := only_in_path2 st;
              diff_files := <[rel_path := d]> (diff_files st) |}
      else Ok st
  | None => Ok st
  end.

(** [compare], lines 106-127, on an object whose result fields are [st]. *)
Definition compare (st : Results) : result Results :=
  let files1 := _get_relative_files (path1 self) in
  let files2 := _get_relative_files (path2 self) in
  let st1 :=
    {| only_in_path1 := files1 ∖ files2;
       only_in_path2 := files2 ∖ files1;
       diff_files := diff_files st |} in
  let common_files := files1 ∩ files2 in
  for_each compare_one (sorted common_files) st1.

End Program.

(** ** Vocabulary of the specification *)

(** The extension as the specification words it: "the substring after the
    last [.] in the filename, lowercased; a filename with no [.] has an empty
    extension". *)
Definition spec_extension (filename : string) : string :=
  let i := PyStr.rfind "." filename in
  if i <? 0 then "" else PyStr.lower (PyStr.slice_from filename (i + 1)).

(** A file name (of any kind of non-directory entry) [f] sits in the
    directory reached from [entries] through the directories [ds]. *)
Inductive file_at : list node -> path -> string -> Prop :=
| file_here entries kind f :
    In (File kind f) entries -> file_at entries [] f
| file_below entries is_link d sub ds f :
    In (Dir is_link d sub) entries ->
    file_at sub ds f ->
    file_at entries (d :: ds) f.

(** The directory [sub] is reached from [entries] through the names [ds],
    none of them a symbolic link. *)
Inductive real_dir_at : list node -> path -> list node -> Prop :=
| real_dir_here entries : real_dir_at entries [] entries
| real_dir_below entries d sub ds sub' :
    In (Dir false d sub) entries ->
    real_dir_at sub ds sub' ->
    real_dir_at entries (d :: ds) sub'.

(** No entry of a directory has the separator in its name. *)
Definition name_ok (name : string) : bool := negb (PyStr.contains "/" name).

Fixpoint node_names_ok (n : node) : bool :=
  match n with
  | File _ name => name_ok name
  | Dir _ name entries => name_ok name && forallb node_names_ok entries
  end.

Definition names_ok (entries : list node) : bool :=
  forallb node_names_ok entries.

(** The DiffRecord the loop of [compare] stores for a common path: the value
    of [_compare_file_content] when it is truthy. *)
Definition diff_record (unified_diff :
    list string -> list string -> string -> string -> list string)
  (fs : FileSystem) (self : ProjectComparator) (rel_path : string)
  : option (list string) :=
  match _compare_file_content unified_diff fs self rel_path with
  | Ok (Some (l :: ls)) => Some (l :: ls)
  | _ => None
  end.

(** ** Instances of the library functions, for running the model *)

(** Shell-style matching for patterns made of [*], [?] and literal
    characters, on ASCII names, case-sensitively as [fnmatch] is on POSIX. *)
Fixpoint glob_match (pat : string) : string -> bool :=
  match pat with
  | EmptyString => fun name => bool_decide (name = EmptyString)
  | String c pat' =>
      if Ascii.eqb c "*" then
        fix star (name : string) : bool :=
          glob_match pat' name
          || match name with
             | EmptyString => false
             | String _ name' => star name'
             end
      else if Ascii.eqb c "?" then
        fun name =>
          match name with
          | EmptyString => false
          | String _ name' => glob_match pat' name'
          end
      else
        fun name =>
          match name with
          | EmptyString => false
          | String a name' => Ascii.eqb a c && glob_match pat' name'
          end
  end.

Definition posix_fnmatch (filename pattern : string) : bool :=
  glob_match pattern filename.

(** A comparator with nothing but its two roots configured. *)
Definition plain (p1 p2 : string) : ProjectComparator :=
  {| path1 := p1; path2 := p2;
     ignore_ext := ∅; only_ext := ∅; ignore_dirs := ∅; ignore_files := ∅ |}.

(** A comparator with [.py] both allowed and ignored. *)
Definition py_in_both : ProjectComparator :=
  {| path1 := "/A"; path2 := "/B"; ignore_ext := {[ ".py" ]};
     only_ext := {[ ".py" ]}; ignore_dirs := ∅; ignore_files := ∅ |}.

(** The disk of the scenario of the specification: [x.txt] under both
    roots, ["hello\n"] on the left and ["hello\nworld\n"] on the right, and
    [same.txt] with one content under both. *)
Definition hello : string := "hello" +:+ String LF "".
Definition hello_world : string := hello +:+ "world" +:+ String LF "".

Definition scenario_fs : FileSystem :=
  {| fs_entries := fun _ => [File Regular "same.txt"; File Regular "x.txt"];
     fs_read := fun f =>
       if bool_decide (f = "/A/x.txt") then Ok hello
       else if bool_decide (f = "/B/x.txt") then Ok hello_world
       else if bool_decide (f = "/A/same.txt") then Ok hello
       else if bool_decide (f = "/B/same.txt") then Ok hello
       else Raise (Exception "[Errno 2] No such file or directory") |}.

(** The disk of two more scenarios: the left root holds [a.log] and
    [sub/keep.py], the right root an empty [sub]. *)
Definition left_only_fs : FileSystem :=
  {| fs_entries := fun root =>
       if bool_decide (root = "/A")
       then [File Regular "a.log"; Dir false "sub" [File Regular "keep.py"]]
       else [Dir false "sub" []];
     fs_read := fun _ => Ok hello |}.

(** A disk where [x.txt] is under both roots and cannot be opened on the
    left. *)
Definition denied_fs : FileSystem :=
  {| fs_entries := fun _ => [File Regular "x.txt"; File Regular "y.txt"];
     fs_read := fun f =>
       if bool_decide (f = "/A/x.txt")
       then Raise (Exception "[Errno 13] Permission denied: '/A/x.txt'")
       else Ok hello |}.

(** A disk where the left [x.txt] is the right one behind a byte, [0xFF],
    that is no UTF-8. *)
Definition stray_byte : string := String "255" "a".

Definition stray_byte_fs : FileSystem :=
  {| fs_entries := fun _ => [File Regular "x.txt"];
     fs_read := fun f =>
       if bool_decide (f = "/A/x.txt") then Ok stray_byte else Ok "a" |}.

(** ** The report, the summary and the command line

    What the rest of the program does with the result of [compare]: the
    strings it hands to [print], in order, and the files it writes. *)

(** [s * n] *)
Fixpoint str_repeat (s : string) (n : nat) : string :=
  match n with
  | O => ""
  | S n' => s +:+ str_repeat s n'
  end.

(** [sep.join(l)] *)
Fixpoint str_join (sep : string) (l : list string) : string :=
  match l with
  | [] => ""
  | x :: rest =>
      match rest with
      | [] => x
      | _ :: _ => x +:+ sep +:+ str_join sep rest
      end
  end.

(** [f"{n}"] for a length [n]. *)
Definition str_of_len (n : nat) : string := Difflib.decimal (Z.of_nat n).

(** Truth value of an [Optional[str]]: neither [None] nor empty. *)
Definition str_truthy (o : option string) : bool :=
  match o with
  | Some (String _ _) => true
  | _ => false
  end.

(** The constants of [colorama] the program uses. *)
Record Colorama := {
  Fore_CYAN : string;
  Fore_GREEN : string;
  Fore_YELLOW : string;
  Fore_RED : string;
  Style_RESET_ALL : string;
}.

(** Their values: ANSI escape sequences. *)
Definition ESC : string := String (ascii_of_nat 27) "".

Definition ansi : Colorama :=
  {| Fore_CYAN := ESC +:+ "[36m";
     Fore_GREEN := ESC +:+ "[32m";
     Fore_YELLOW := ESC +:+ "[33m";
     Fore_RED := ESC +:+ "[31m";
     Style_RESET_ALL := ESC +:+ "[0m" |}.

(** What a run leaves behind: the arguments of its calls of [print], and the
    files it wrote with their contents. *)
Record Console := {
  printed : list string;
  written : list (string * string);
}.

Definition empty_console : Console := {| printed := []; written := [] |}.

(** A computation that prints, writes files and may raise; what was printed
    and written before an exception stays. *)
Definition io (A : Type) : Type := Console -> Console * result A.

#[global] Instance io_ret : MRet io := fun A a c => (c, Ok a).

#[global] Instance io_bind : MBind io := fun A B k m c =>
  match m c with
  | (c', Ok a) => k a c'
  | (c', Raise e) => (c', Raise e)
  end.

(** [print(s)] *)
Definition print (s : string) : io unit := fun c =>
  ({| printed := printed c ++ [s]; written := written c |}, Ok tt).

(** A computation without effects on the console. *)
Definition lift {A} (r : result A) : io A := fun c => (c, r).

(** The operating system around the program: the disk as [compare] meets
    it, [os.path.isdir], [Path.resolve], and what
    [open(f, 'w', encoding='utf-8')] followed by [write] does (it succeeds,
    or raises an [OSError]; what a failed write leaves on the disk is not
    kept). *)
Record OS := {
  os_fs : FileSystem;
  os_isdir : string -> bool;
  os_resolve : string -> string;
  os_write : string -> string -> result unit;
}.

(** [with open(f, 'w', encoding='utf-8') as h: h.write(content)] *)
Definition write_text (os : OS) (f content : string) : io unit := fun c =>
  match os_write os f content with
  | Ok _ =>
      ({| printed := printed c; written := written c ++ [(f, content)] |},
       Ok tt)
  | Raise e => (c, Raise e)
  end.

(** The namespace [argparse] returns. *)
Record Args := {
  args_path1 : string;
  args_path2 : string;
  args_output : option string;
  args_ignore_ext : list string;
  args_only_ext : list string;
  args_ignore_dirs : list string;
  args_ignore_files : list string;
}.

(** [set(l or [])] for an [Optional[List[str]]]. *)
Definition set_of (l : option (list string)) : gset string :=
  list_to_set (default [] l).

(** [ProjectComparator.__init__], lines 26-34. *)
Definition __init__ (os : OS) (p1 p2 : string)
  (ignore_ext only_ext ignore_dirs ignore_files : option (list string))
  : ProjectComparator :=
  {| path1 := os_resolve os p1;
     path2 := os_resolve os p2;
     ignore_ext := set_of ignore_ext;
     only_ext := set_of only_ext;
     ignore_dirs := set_of ignore_dirs;
     ignore_files := set_of ignore_files |}.

(** Truth value of a dict: non-empty. *)
Definition dict_truthy (d : gmap string (list string)) : bool :=
  bool_decide (d ≠ ∅).

(** The line of a file in the report: [f"  ➤ {file}"]. *)
Definition bullet (file : string) : string := "  ➤ " +:+ file.

Section Report.

Variable fnmatch : string -> string -> bool.
Variable unified_diff :
  list string -> list string -> string -> string -> list string.
Variable colors : Colorama.
Variable os : OS.

(** The list [lines] of [generate_report], lines 131-162. *)
Definition report_lines (self : ProjectComparator) (st : Results)
  : list string :=
  let lines :=
    [str_repeat "=" 80;
     "PROJECT COMPARISON REPORT";
     str_repeat "=" 80;
     "Project 1: " +:+ path1 self;
     "Project 2: " +:+ path2 self;
     str_repeat "=" 80;
     ""] in
  let lines :=
    if set_truthy (only_in_path1 st) then
      lines
        ++ ["📌 FILES FOUND ONLY IN PROJECT1 ("
              +:+ str_of_len (size (only_in_path1 st)) +:+ " files):";
            str_repeat "-" 80]
        ++ map bullet (sorted (only_in_path1 st))
        ++ [""]
    else lines in
  let lines :=
    if set_truthy (only_in_path2 st) then
      lines
        ++ ["📌 FILES FOUND ONLY IN PROJECT2 ("
              +:+ str_of_len (size (only_in_path2 st)) +:+ " files):";
            str_repeat "-" 80]
        ++ map bullet (sorted (only_in_path2 st))
        ++ [""]
    else lines in
  if dict_truthy (diff_files st) then
    lines
      ++ ["📌 FILES WITH CONTENT DIFFERENCES ("
            +:+ str_of_len (size (diff_files st)) +:+ " files):";
          str_repeat "-" 80]
      ++ map bullet (sorted (dom (diff_files st)))
      ++ [""]
  else lines.

(** [generate_report], lines 129-171. *)
Definition generate_report (self : ProjectComparator) (st : Results)
  (output_file : option string) : io string :=
  let report := str_join (String LF "") (report_lines self st) in
  _ ← (if str_truthy output_file
       then write_text os (default "" output_file) report
       else mret tt);
  mret report.

(** [print_summary], lines 173-194. *)
Definition print_summary (st : Results) (output_file : option string)
  : io unit :=
  _ ← print (String LF "" +:+ str_repeat "=" 80);
  _ ← print (Fore_GREEN colors +:+ "✅ COMPARISON COMPLETED"
             +:+ Style_RESET_ALL colors);
  _ ← print (str_repeat "=" 80);
  _ ← (if set_truthy (only_in_path1 st)
       then print (Fore_YELLOW colors +:+ "📁 "
                   +:+ str_of_len (size (only_in_path1 st))
                   +:+ " files found only in Project1."
                   +:+ Style_RESET_ALL colors)
       else mret tt);
  _ ← (if set_truthy (only_in_path2 st)
       then print (Fore_YELLOW colors +:+ "📁 "
                   +:+ str_of_len (size (only_in_path2 st))
                   +:+ " files found only in Project2."
                   +:+ Style_RESET_ALL colors)
       else mret tt);
  _ ← (if dict_truthy (diff_files st)
       then print (Fore_RED colors +:+ "📝 "
                   +:+ str_of_len (size (diff_files st))
                   +:+ " files with content differences detected."
                   +:+ Style_RESET_ALL colors)
       else mret tt);
  _ ← (if negb (set_truthy (only_in_path1 st))
          && negb (set_truthy (only_in_path2 st))
          && negb (dict_truthy (diff_files st))
       then print (Fore_GREEN colors +:+ "✨ Folders are identical!"
                   +:+ Style_RESET_ALL colors)
       else mret tt);
  _ ← (if str_truthy output_file
       then print (Fore_CYAN colors +:+ "📄 Detailed report: "
                   +:+ default "" output_file +:+ Style_RESET_ALL colors)
       else mret tt);
  print (str_repeat "=" 80).

(** [compare] with its two calls of [print], lines 108 and 121.  (The
    progress bar of [tqdm] goes to the standard error stream, which is not
    kept.) *)
Definition compare_printing (self : ProjectComparator) (st : Results)
  : io Results :=
  _ ← print (Fore_CYAN colors +:+ "📁 Scanning folders..."
             +:+ Style_RESET_ALL colors);
  let files1 := _get_relative_files fnmatch (os_fs os) self (path1 self) in
  let files2 := _get_relative_files fnmatch (os_fs os) self (path2 self) in
  let common_files := files1 ∩ files2 in
  _ ← print (Fore_CYAN colors +:+ "🔍 Comparing "
             +:+ str_of_len (size common_files) +:+ " common files..."
             +:+ Style_RESET_ALL colors +:+ String LF "");
  lift (compare fnmatch unified_diff (os_fs os) self st).

(** The [try] block of [main], lines 247-254. *)
Definition main_body (self : ProjectComparator) (args : Args) : io unit :=
  st ← compare_printing self init_results;
  report ← generate_report self st (args_output args);
  _ ← (if negb (str_truthy (args_output args))
       then print (String LF "" +:+ report)
       else mret tt);
  print_summary st (args_output args).

(** The line printed for a root that is no directory, lines 229 and 233. *)
Definition not_found_line (folder : string) : string :=
  Fore_RED colors +:+ "❌ ERROR: Folder '" +:+ folder +:+ "' not found!"
  +:+ Style_RESET_ALL colors.

(** The line printed by the handler of line 259. *)
Definition error_exit_line (e : exn) : string :=
  Fore_RED colors +:+ "❌ ERROR: " +:+ exn_str e +:+ Style_RESET_ALL colors.

(** [main], lines 197-261, from the parsed arguments on: what the run
    leaves behind and the exit status of the process.  (An interrupt from
    the keyboard, which can arrive at any point, is not part of the
    model.) *)
Definition main (args : Args) : Console * Z :=
  if negb (os_isdir os (args_path1 args)) then
    (fst (print (not_found_line (args_path1 args)) empty_console), 1)
  else if negb (os_isdir os (args_path2 args)) then
    (fst (print (not_found_line (args_path2 args)) empty_console), 1)
  else
    let comparator :=
      __init__ os (args_path1 args) (args_path2 args)
        (Some (args_ignore_ext args)) (Some (args_only_ext args))
        (Some (args_ignore_dirs args)) (Some (args_ignore_files args)) in
    match main_body comparator args empty_console with
    | (c, Ok _) => (c, 0)
    | (c, Raise e) => (fst (print (error_exit_line e) c), 1)
    end.

End Report.

(** ** Vocabulary of further properties *)

(** *** Matching blocks of [difflib] *)

Module DifflibBlocks.
Import Difflib.
(** The lines of a match are the same in both sequences. *)
Definition matches (a b : list string) (m : Match) : Prop :=
  let '(i, j, k) := m in
  forall t, 0 <= t < k -> item a (i + t) = item b (j + t).

(** A matching block: a non-empty match within the two sequences. *)
Definition valid_match (a b : list string) (m : Match) : Prop :=
  let '(i, j, k) := m in
  0 <= i /\ 0 <= j /\ 0 < k /\ i + k <= len a /\ j + k <= len b
  /\ matches a b m.

(** A block of the queue lies within the two sequences. *)
Definition block_in (a b : list string) (block : Z * Z * Z * Z) : Prop :=
  let '(alo, ahi, blo, bhi) := block in
  0 <= alo /\ alo <= ahi /\ ahi <= len a /\ 0 <= blo /\ blo <= bhi
  /\ bhi <= len b.
End DifflibBlocks.

(** *** Line endings *)

(** A text with every line feed turned into carriage return, line feed. *)
Fixpoint to_crlf (s : string) : string :=
  match s with
  | EmptyString => EmptyString
  | String c s' =>
      if Ascii.eqb c LF then String CR (String LF (to_crlf s'))
      else String c (to_crlf s')
  end.

(** The first [k] bytes of [s] are continuation bytes. *)
Fixpoint cont_prefix (k : nat) (s : string) : Prop :=
  match k with
  | O => True
  | S k' =>
      match s with
      | EmptyString => False
      | String b s' =>
          is_continuation (byte_val b) = true /\ cont_prefix k' s'
      end
  end.

Definition pending_ok (p : pending) (s : string) : Prop :=
  match p with
  | Copy k => cont_prefix k s
  | Skip k => cont_prefix k s
  end.

(** The lines a section of the report takes: none when it has no file, or
    its title, its rule, one line per file and an empty line. *)
Definition section_len (n : nat) : nat :=
  match n with
  | O => O
  | S _ => n + 3
  end.

(** The comparator with its two roots exchanged. *)
Definition swap_roots (self : ProjectComparator) : ProjectComparator :=
  {| path1 := path2 self; path2 := path1 self;
     ignore_ext := ignore_ext self; only_ext := only_ext self;
     ignore_dirs := ignore_dirs self; ignore_files := ignore_files self |}.

(** The comparator [main] builds, lines 237-244. *)
Definition comparator_of (os : OS) (args : Args) : ProjectComparator :=
  __init__ os (args_path1 args) (args_path2 args)
    (Some (args_ignore_ext args)) (Some (args_only_ext args))
    (Some (args_ignore_dirs args)) (Some (args_ignore_files args)).

(** The line of [print_summary] for two folders without a difference, in
    the colours of [ansi]. *)
Definition identical_line : string :=
  Fore_GREEN ansi +:+ "✨ Folders are identical!" +:+ Style_RESET_ALL ansi.

(** *** More instances *)

(** A disk where [x.txt] ends its lines with line feed under [/A] and with
    carriage return, line feed elsewhere. *)
Definition crlf_fs : FileSystem :=
  {| fs_entries := fun _ => [File Regular "x.txt"];
     fs_read := fun f =>
       if bool_decide (f = "/A/x.txt") then Ok hello_world
       else Ok (to_crlf hello_world) |}.

(** The result of a comparison where [x.txt] alone differs, with [d] as its
    record. *)
Definition one_record (d : list string) : Results :=
  {| only_in_path1 := ∅; only_in_path2 := ∅;
     diff_files := {[ "x.txt" := d ]} |}.

(** An operating system where every path is a directory, paths are
    absolute already and every write succeeds. *)
Definition plain_os (fs : FileSystem) : OS :=
  {| os_fs := fs; os_isdir := fun _ => true; os_resolve := fun p => p;
     os_write := fun _ _ => Ok tt |}.

(** The arguments of [compare_projects.py /A /B --ignore-ext <l>]. *)
Definition ignoring_ext (l : list string) : Args :=
  {| args_path1 := "/A"; args_path2 := "/B"; args_output := None;
     args_ignore_ext := l; args_only_ext := []; args_ignore_dirs := [];
     args_ignore_files := [] |}.

(** * Properties *)

(** ** Strings *)

Lemma len_nonneg s : 0 <= PyStr.len s.
Proof. unfold PyStr.len. lia. Qed.

Lemma len_cons a s : PyStr.len (String a s) = PyStr.len s + 1.
Proof. unfold PyStr.len. simpl String.length. lia. Qed.

Lemma len_app s t : PyStr.len (s +:+ t) = PyStr.len s + PyStr.len t.
Proof.
  induction s as [|a s IH]; [reflexivity|].
  change (String a s +:+ t) with (String a (s +:+ t)).
  rewrite !len_cons, IH. lia.
Qed.

Lemma rfind_from_absent c s pos :
  PyStr.contains c s = false -> PyStr.rfind_from c s pos = -1.
Proof.
  revert pos. induction s as [|a s IH]; intros pos H; [reflexivity|].
  simpl in *. apply orb_false_iff in H as [Ha Hs].
  rewrite (IH _ Hs), Ha. reflexivity.
Qed.

Lemma rfind_from_last c pre post pos :
  0 <= pos ->
  PyStr.contains c post = false ->
  PyStr.rfind_from c (pre +:+ String c post) pos = pos + PyStr.len pre.
Proof.
  revert pos. induction pre as [|a pre IH]; intros pos Hpos Hpost.
  - change ("" +:+ String c post) with (String c post). simpl.
    rewrite (rfind_from_absent _ _ _ Hpost), Ascii.eqb_refl.
    change (PyStr.len "") with 0. simpl. lia.
  - change (String a pre +:+ String c post)
      with (String a (pre +:+ String c post)).
    simpl. rewrite IH by (lia || assumption).
    pose proof (len_nonneg pre). rewrite len_cons.
    destruct (0 <=? pos + 1 + PyStr.len pre) eqn:E; [lia|].
    apply Z.leb_gt in E. lia.
Qed.

Lemma drop_app pre s : PyStr.drop (String.length pre) (pre +:+ s) = s.
Proof. induction pre as [|a pre IH]; [by destruct s|]. exact IH. Qed.

Lemma lower_char_not_dot a :
  Ascii.eqb a "." = false -> Ascii.eqb (PyStr.lower_char a) "." = false.
Proof.
  destruct a as [[] [] [] [] [] [] [] []]; intros H; try reflexivity;
    discriminate H.
Qed.

Lemma lower_dot : PyStr.lower_char "." = "."%char.
Proof. reflexivity. Qed.

Lemma lower_app s t : PyStr.lower (s +:+ t) = PyStr.lower s +:+ PyStr.lower t.
Proof.
  induction s as [|a s IH]; [reflexivity|].
  change (String a s +:+ t) with (String a (s +:+ t)). simpl.
  rewrite IH. reflexivity.
Qed.

Lemma lower_empty_iff s : PyStr.lower s = "" <-> s = "".
Proof. destruct s; simpl; split; intros H; (reflexivity || discriminate). Qed.

(** ** [Path.suffix] *)

Lemma path_name_last dir name : path_name (dir ++ [name]) = name.
Proof. unfold path_name. apply last_last. Qed.

Lemma path_suffix_no_dot p :
  PyStr.contains "." (path_name p) = false -> path_suffix p = "".
Proof.
  intros H. unfold path_suffix, PyStr.rfind.
  rewrite (rfind_from_absent _ _ _ H). reflexivity.
Qed.

Lemma path_suffix_split p pre post :
  path_name p = pre +:+ String "." post ->
  PyStr.contains "." post = false ->
  path_suffix p =
    if bool_decide (pre = "") || bool_decide (post = "") then ""
    else String "." post.
Proof.
  intros Hname Hpost. unfold path_suffix, PyStr.rfind. rewrite Hname.
  rewrite rfind_from_last by (lia || assumption).
  rewrite len_app, len_cons. unfold PyStr.slice_from.
  replace (Z.to_nat (0 + PyStr.len pre)) with (String.length pre)
    by (unfold PyStr.len; lia).
  rewrite drop_app.
  destruct pre as [|a pre]; [reflexivity|].
  rewrite (bool_decide_eq_false_2 (String a pre = "")) by done.
  pose proof (len_nonneg pre). pose proof (len_nonneg post).
  destruct post as [|b post].
  - rewrite !len_cons. change (PyStr.len "") with 0.
    repeat match goal with
           | |- context [?a <? ?b] => destruct (Z.ltb_spec a b)
           end; try lia; reflexivity.
  - rewrite (bool_decide_eq_false_2 (String b post = "")) by done.
    rewrite !len_cons. pose proof (len_nonneg post).
    repeat match goal with
           | |- context [?a <? ?b] => destruct (Z.ltb_spec a b)
           end; try lia; reflexivity.
Qed.

(** Every name is free of dots or splits at its last dot. *)
Lemma last_dot_split name :
  PyStr.contains "." name = false
  \/ exists pre post,
       name = pre +:+ String "." post /\ PyStr.contains "." post = false.
Proof.
  induction name as [|a name IH]; [left; reflexivity|].
  destruct IH as [IH | (pre & post & -> & Hpost)].
  - destruct (Ascii.eqb a ".") eqn:E.
    + right. apply Ascii.eqb_eq in E as ->. exists "", name. split; done.
    + left. simpl. rewrite E, IH. reflexivity.
  - right. exists (String a pre), post. split; done.
Qed.

(** The suffix is empty or starts with the dot. *)
Lemma path_suffix_shape p :
  path_suffix p = "" \/ PyStr.startswith "." (path_suffix p) = true.
Proof.
  destruct (last_dot_split (path_name p)) as [H | (pre & post & Hn & Hp)].
  - left. by apply path_suffix_no_dot.
  - rewrite (path_suffix_split _ _ _ Hn Hp).
    destruct (bool_decide (pre = "") || bool_decide (post = ""));
      [left | right]; reflexivity.
Qed.

Lemma file_ext_shape p :
  file_ext p = "" \/ PyStr.startswith "." (file_ext p) = true.
Proof.
  unfold file_ext. destruct (path_suffix_shape p) as [-> | H]; [by left|].
  right. destruct (path_suffix p) as [|a s]; [discriminate H|].
  simpl in *. apply Ascii.eqb_eq in H as ->. reflexivity.
Qed.

(** ** The file filter *)

Section FilterProperties.

Variable fnmatch : string -> string -> bool.
Variable self : ProjectComparator.

Lemma set_truthy_empty (s : gset string) : set_truthy s = false <-> s = ∅.
Proof.
  unfold set_truthy. rewrite bool_decide_eq_false. split.
  - intros H. destruct (decide (s = ∅)); [assumption | contradiction].
  - intros -> H. contradiction.
Qed.

Lemma set_mem_true x (s : gset string) : set_mem x s = true <-> x ∈ s.
Proof. unfold set_mem. apply bool_decide_eq_true. Qed.

Lemma set_mem_false x (s : gset string) : set_mem x s = false <-> x ∉ s.
Proof. unfold set_mem. apply bool_decide_eq_false. Qed.

Lemma no_pattern_matches filename (patterns : gset string) :
  existsb (fun pattern => fnmatch filename pattern) (elements patterns) = false
  <-> forall pattern, pattern ∈ patterns -> fnmatch filename pattern = false.
Proof.
  split.
  - intros H pattern Hin.
    destruct (fnmatch filename pattern) eqn:E; [|reflexivity].
    rewrite <- H. symmetry. apply existsb_exists. exists pattern.
    split; [|assumption]. apply list_elem_of_In, elem_of_elements, Hin.
  - intros H. destruct (existsb _ _) eqn:E; [|reflexivity].
    apply existsb_exists in E as (pattern & Hin & Hm).
    apply list_elem_of_In, elem_of_elements in Hin.
    rewrite (H _ Hin) in Hm. discriminate Hm.
Qed.

(** The three tests of [_should_ignore], in one statement. *)
Lemma should_ignore_false_iff file_path :
  _should_ignore fnmatch self file_path = false
  <-> (forall pattern, pattern ∈ ignore_files self ->
         fnmatch (path_name file_path) pattern = false)
      /\ (only_ext self = ∅ \/ file_ext file_path ∈ only_ext self)
      /\ (file_ext file_path ∉ ignore_ext self).
Proof.
  unfold _should_ignore. rewrite <- no_pattern_matches.
  destruct (existsb _ _); [split; [discriminate | intros [? _]; discriminate]|].
  unfold set_truthy, set_mem.
  repeat case_bool_decide; simpl; split; try discriminate; try tauto.
  all: intros (_ & [He | Hin] & Hi); contradiction.
Qed.

(** C5. With an empty [only_ext], a file is included (not ignored) iff its
    extension is not in [ignore_ext] and its bare name matches no pattern of
    [ignore_files]. *)
Theorem included_without_allow_list file_path :
  only_ext self = ∅ ->
  _should_ignore fnmatch self file_path = false
  <-> (file_ext file_path ∉ ignore_ext self)
      /\ forall pattern, pattern ∈ ignore_files self ->
           fnmatch (path_name file_path) pattern = false.
Proof.
  intros Hempty. rewrite should_ignore_false_iff. split.
  - intros (Hp & _ & Hi). split; assumption.
  - intros (Hi & Hp). repeat split; [assumption | by left | assumption].
Qed.

(** C1, as the code has it. With a non-empty [only_ext], a file is included
    iff its extension is in [only_ext], is not in [ignore_ext], and its bare
    name matches no pattern of [ignore_files]: the test on [ignore_ext] is
    made whether or not an allow-list is given. *)
Theorem included_with_allow_list file_path :
  only_ext self ≠ ∅ ->
  _should_ignore fnmatch self file_path = false
  <-> (file_ext file_path ∈ only_ext self)
      /\ (file_ext file_path ∉ ignore_ext self)
      /\ forall pattern, pattern ∈ ignore_files self ->
           fnmatch (path_name file_path) pattern = false.
Proof.
  intros Hne. rewrite should_ignore_false_iff. split.
  - intros (Hp & [He | Ho] & Hi); [contradiction|]. repeat split; assumption.
  - intros (Ho & Hi & Hp). repeat split; [assumption | by right | assumption].
Qed.

End FilterProperties.

(** The witness of C5: [notes.txt] under a filter ignoring [.log] files and
    the names matching [*.bak]. *)
Lemma included_without_allow_list_witness :
  _should_ignore posix_fnmatch
    {| path1 := "/A"; path2 := "/B"; ignore_ext := {[ ".log" ]}; only_ext := ∅;
       ignore_dirs := ∅; ignore_files := {[ "*.bak" ]} |}
    ["src"; "notes.txt"] = false
  <-> (".txt" ∉ ({[ ".log" ]} : gset string))
      /\ forall pattern, pattern ∈ ({[ "*.bak" ]} : gset string) ->
           posix_fnmatch "notes.txt" pattern = false.
Proof.
  refine (included_without_allow_list posix_fnmatch
            {| path1 := "/A"; path2 := "/B"; ignore_ext := {[ ".log" ]};
               only_ext := ∅; ignore_dirs := ∅;
               ignore_files := {[ "*.bak" ]} |}
            ["src"; "notes.txt"] _).
  reflexivity.
Defined.

(** The witness of the amended C1: [main.py] under the allow-list [.py]. *)
Lemma included_with_allow_list_witness :
  _should_ignore posix_fnmatch
    {| path1 := "/A"; path2 := "/B"; ignore_ext := ∅; only_ext := {[ ".py" ]};
       ignore_dirs := ∅; ignore_files := ∅ |}
    ["main.py"] = false
  <-> (".py" ∈ ({[ ".py" ]} : gset string))
      /\ (".py" ∉ (∅ : gset string))
      /\ forall pattern, pattern ∈ (∅ : gset string) ->
           posix_fnmatch "main.py" pattern = false.
Proof.
  refine (included_with_allow_list posix_fnmatch
            {| path1 := "/A"; path2 := "/B"; ignore_ext := ∅;
               only_ext := {[ ".py" ]}; ignore_dirs := ∅;
               ignore_files := ∅ |}
            ["main.py"] _).
  simpl. intros H. apply (f_equal (fun s : gset string => size s)) in H.
  vm_compute in H. discriminate H.
Defined.

(** C1 as stated fails: with [only_ext = {.py}] and [ignore_ext = {.py}], the
    file [a.py] has its extension in the allow-list and matches no pattern,
    and is ignored all the same. *)
Lemma allow_list_does_not_override_ignore_ext :
  only_ext py_in_both ≠ ∅
  /\ file_ext ["a.py"] ∈ only_ext py_in_both
  /\ (forall pattern, pattern ∈ ignore_files py_in_both ->
        posix_fnmatch (path_name ["a.py"]) pattern = false)
  /\ _should_ignore posix_fnmatch py_in_both ["a.py"] = true
  /\ ~ (forall (fnmatch : string -> string -> bool)
               (self : ProjectComparator) (file_path : path),
          only_ext self ≠ ∅ ->
          _should_ignore fnmatch self file_path = false
          <-> (file_ext file_path ∈ only_ext self)
              /\ forall pattern, pattern ∈ ignore_files self ->
                   fnmatch (path_name file_path) pattern = false).
Proof.
  assert (Hne : only_ext py_in_both ≠ ∅).
  { intros E. apply (f_equal (fun s : gset string => size s)) in E.
    vm_compute in E. discriminate E. }
  assert (Hin : file_ext ["a.py"] ∈ only_ext py_in_both).
  { cbn [only_ext py_in_both]. apply elem_of_singleton. reflexivity. }
  assert (Hpat : forall pattern, pattern ∈ ignore_files py_in_both ->
            posix_fnmatch (path_name ["a.py"]) pattern = false).
  { intros pattern Hp. by apply not_elem_of_empty in Hp. }
  assert (Hignored : _should_ignore posix_fnmatch py_in_both ["a.py"] = true).
  { vm_compute. reflexivity. }
  repeat split; try assumption.
  intros H. specialize (H posix_fnmatch py_in_both ["a.py"] Hne) as [_ Hback].
  rewrite Hback in Hignored; [discriminate Hignored | by split].
Qed.

(** ** The extension *)

(** C6, as the code has it. The extension used for filtering is the part of
    the file name from its last dot on, dot included, lowercased, when that
    dot is neither the first nor the last character of the name; it is empty
    when the name has no dot, when its only dot is leading (as in
    [.gitignore]) and when its last dot is trailing. *)
Theorem file_ext_of_name (dir : path) (name : string) :
  (PyStr.contains "." name = false -> file_ext (dir ++ [name]) = "")
  /\ (forall pre post,
        name = pre +:+ String "." post ->
        PyStr.contains "." post = false ->
        file_ext (dir ++ [name]) =
          if bool_decide (pre = "") || bool_decide (post = "") then ""
          else String "." (PyStr.lower post)).
Proof.
  split.
  - intros H. unfold file_ext. rewrite path_suffix_no_dot; [reflexivity|].
    rewrite path_name_last. assumption.
  - intros pre post Hname Hpost. unfold file_ext.
    rewrite (path_suffix_split _ pre post);
      [| rewrite path_name_last; assumption | assumption].
    destruct (bool_decide (pre = "") || bool_decide (post = ""));
      reflexivity.
Qed.

(** The witness of the amended C6: [src/Archive.TAR.GZ] has the extension
    [.gz], and [Makefile] has none. *)
Lemma file_ext_of_name_witness :
  file_ext (["src"] ++ ["Archive.TAR.GZ"]) = ".gz"
  /\ file_ext ([] ++ ["Makefile"]) = "".
Proof.
  split.
  - exact (proj2 (file_ext_of_name ["src"] "Archive.TAR.GZ")
             "Archive.TAR" "GZ" eq_refl eq_refl).
  - exact (proj1 (file_ext_of_name [] "Makefile") eq_refl).
Defined.

(** C6 as stated fails: the extension of [.gitignore] is empty, not the
    [gitignore] that follows its dot, and that of [a.py] keeps its dot. *)
Lemma dotfile_has_empty_extension :
  file_ext [".gitignore"] = ""
  /\ spec_extension ".gitignore" = "gitignore"
  /\ file_ext ["a.py"] = ".py"
  /\ spec_extension "a.py" = "py"
  /\ ~ (forall file_path : path,
          file_ext file_path = spec_extension (path_name file_path)).
Proof.
  repeat split; try reflexivity.
  intros H. specialize (H [".gitignore"]). discriminate H.
Qed.

(** C10, as the code has it. The configured strings are compared verbatim
    with the lowercased suffix: with no other filter set, the one entry of
    [ignore_ext] excludes exactly the files whose extension it equals, and
    the one entry of [only_ext] admits exactly those.  The extension is
    empty or starts with a dot, so a non-empty entry that does not start
    with a dot is the extension of no file.  A name with no dot, or whose
    only dot is leading, has the empty extension, which only the empty entry
    equals. *)
Theorem ext_entries_compared_verbatim
  (fnmatch : string -> string -> bool) (self : ProjectComparator)
  (file_path : path) :
  (forall e, ignore_files self = ∅ ->
     (only_ext self = ∅ -> ignore_ext self = {[ e ]} ->
      _should_ignore fnmatch self file_path = true <-> file_ext file_path = e)
     /\ (only_ext self = {[ e ]} -> ignore_ext self = ∅ ->
         _should_ignore fnmatch self file_path = false
         <-> file_ext file_path = e))
  /\ (forall e, e ≠ "" -> PyStr.startswith "." e = false ->
        file_ext file_path ≠ e)
  /\ (forall rest, PyStr.contains "." rest = false ->
        path_name file_path = rest \/ path_name file_path = String "." rest ->
        file_ext file_path = ""
        /\ forall e, file_ext file_path = e <-> e = "").
Proof.
  split; [|split].
  - intros e Hf. split.
    + intros Ho Hi. rewrite <- not_false_iff_true, should_ignore_false_iff.
      rewrite Hf, Ho, Hi. split.
      * intros H. destruct (decide (file_ext file_path = e)); [assumption|].
        exfalso. apply H. repeat split.
        -- intros pattern Hp. by apply not_elem_of_empty in Hp.
        -- by left.
        -- by intros ?%elem_of_singleton.
      * intros He (_ & _ & Hout). apply Hout. by apply elem_of_singleton.
    + intros Ho Hi. rewrite should_ignore_false_iff, Hf, Ho, Hi. split.
      * intros (_ & [Hempty | Hin] & _); [|by apply elem_of_singleton in Hin].
        exfalso. apply (f_equal (fun s : gset string => size s)) in Hempty.
        rewrite size_singleton, size_empty in Hempty. discriminate Hempty.
      * intros He. repeat split.
        -- intros pattern Hp. by apply not_elem_of_empty in Hp.
        -- right. by apply elem_of_singleton.
        -- apply not_elem_of_empty.
  - intros e Hne Hdot <-.
    destruct (file_ext_shape file_path) as [E | E]; congruence.
  - intros rest Hrest Hname.
    assert (Hext : file_ext file_path = "").
    { unfold file_ext. destruct Hname as [Hn | Hn].
      - rewrite path_suffix_no_dot; [reflexivity | by rewrite Hn].
      - rewrite (path_suffix_split _ "" rest); [reflexivity | | assumption].
        rewrite Hn. reflexivity. }
    split; [assumption|]. intros e. rewrite Hext. split; congruence.
Qed.

(** The witness of the amended C10: the entry [py] is the extension of
    neither [main.py] nor [.gitignore], whose extension is empty. *)
Lemma ext_entries_compared_verbatim_witness :
  file_ext ["main.py"] ≠ "py"
  /\ file_ext [".gitignore"] = "".
Proof.
  split.
  - exact (proj1 (proj2 (ext_entries_compared_verbatim posix_fnmatch
                           (plain "/A" "/B") ["main.py"]))
             "py" ltac:(discriminate) eq_refl).
  - exact (proj1 (proj2 (proj2 (ext_entries_compared_verbatim posix_fnmatch
                                  (plain "/A" "/B") [".gitignore"]))
                    "gitignore" eq_refl (or_intror eq_refl))).
Defined.

(** C10 as stated fails for the empty entry: it does not start with a dot,
    and as an entry of [ignore_ext] it excludes [Makefile]. *)
Lemma empty_entry_matches_dotless_names :
  PyStr.startswith "." "" = false
  /\ _should_ignore posix_fnmatch
       {| path1 := "/A"; path2 := "/B"; ignore_ext := {[ "" ]}; only_ext := ∅;
          ignore_dirs := ∅; ignore_files := ∅ |}
       ["Makefile"] = true
  /\ ~ (forall (e : string) (file_path : path),
          PyStr.startswith "." e = false -> file_ext file_path ≠ e).
Proof.
  split; [reflexivity|]. split; [vm_compute; reflexivity|].
  intros H. apply (H "" ["Makefile"]); reflexivity.
Qed.

(** ** [str(path)] *)

Lemma app_nil_r s : s +:+ "" = s.
Proof.
  induction s as [|a s IH]; [reflexivity|].
  change (String a s +:+ "") with (String a (s +:+ "")). by rewrite IH.
Qed.

Lemma path_str_cons c rest :
  path_str (c :: rest) =
    c +:+ match rest with [] => "" | _ :: _ => String "/" (path_str rest) end.
Proof. destruct rest; simpl; [by rewrite app_nil_r | reflexivity]. Qed.

(** A component ends where the first separator stands. *)
Lemma component_inj s1 s2 t1 t2 :
  name_ok s1 = true -> name_ok s2 = true ->
  t1 = "" \/ PyStr.startswith "/" t1 = true ->
  t2 = "" \/ PyStr.startswith "/" t2 = true ->
  s1 +:+ t1 = s2 +:+ t2 ->
  s1 = s2 /\ t1 = t2.
Proof.
  unfold name_ok. revert s2.
  induction s1 as [|a s1 IH]; intros [|b s2] H1 H2 Ht1 Ht2 E.
  - by split.
  - exfalso. change ("" +:+ t1) with t1 in E. subst t1.
    change (String b s2 +:+ t2) with (String b (s2 +:+ t2)) in Ht1.
    simpl in H2, Ht1. destruct Ht1 as [Ht1 | Ht1]; [discriminate Ht1|].
    rewrite Ht1 in H2. discriminate H2.
  - exfalso. change ("" +:+ t2) with t2 in E. subst t2.
    change (String a s1 +:+ t1) with (String a (s1 +:+ t1)) in Ht2.
    simpl in H1, Ht2. destruct Ht2 as [Ht2 | Ht2]; [discriminate Ht2|].
    rewrite Ht2 in H1. discriminate H1.
  - change (String a s1 +:+ t1) with (String a (s1 +:+ t1)) in E.
    change (String b s2 +:+ t2) with (String b (s2 +:+ t2)) in E.
    injection E as -> E. simpl in H1, H2.
    apply negb_true_iff, orb_false_iff in H1 as [_ H1].
    apply negb_true_iff, orb_false_iff in H2 as [_ H2].
    destruct (IH s2) as [-> ->]; try assumption;
      try (apply negb_true_iff; assumption).
    by split.
Qed.

(** Paths whose components are free of the separator are told apart by
    their strings. *)
Lemma path_str_inj (p q : path) :
  Forall (fun c => name_ok c = true) p ->
  Forall (fun c => name_ok c = true) q ->
  p ≠ [] -> q ≠ [] ->
  path_str p = path_str q -> p = q.
Proof.
  revert q. induction p as [|c p IH]; intros [|d q] Hp Hq Np Nq E;
    try contradiction.
  rewrite !path_str_cons in E.
  apply Forall_cons in Hp as [Hc Hp]. apply Forall_cons in Hq as [Hd Hq].
  apply component_inj in E as [-> E]; try assumption.
  - f_equal. destruct p as [|c' p], q as [|d' q]; try discriminate E.
    + reflexivity.
    + injection E as E. apply IH; try assumption; discriminate.
  - destruct p; [by left | by right].
  - destruct q; [by left | by right].
Qed.

(** ** [os.walk] *)

Lemma node_induction (P : node -> Prop) :
  (forall kind name, P (File kind name)) ->
  (forall is_link name entries,
     Forall P entries -> P (Dir is_link name entries)) ->
  forall n, P n.
Proof.
  intros Hfile Hdir. fix IH 1. intros [kind name | is_link name entries].
  - apply Hfile.
  - apply Hdir. induction entries as [|m entries IHentries].
    + constructor.
    + constructor; [apply IH | apply IHentries].
Qed.

Lemma in_nondirs_of f entries :
  In f (nondirs_of entries) <-> exists kind, In (File kind f) entries.
Proof.
  unfold nondirs_of. rewrite in_map_iff. split.
  - intros (n & <- & Hin). apply filter_In in Hin as [Hin Hd].
    destruct n as [kind name|]; [|discriminate Hd]. by exists kind.
  - intros (kind & Hin). exists (File kind f). split; [reflexivity|].
    apply filter_In. by split.
Qed.

Lemma real_dir_at_weaken n entries rest sub :
  In n entries -> rest ≠ [] ->
  real_dir_at [n] rest sub -> real_dir_at entries rest sub.
Proof.
  intros Hin Hne H. inversion H as [| ? d sub0 ds ? Hd Hsub]; subst.
  - contradiction.
  - destruct Hd as [-> | []]. by apply real_dir_below with sub0.
Qed.

Section Walk.

Variable keep : string -> bool.

(** What one entry contributes to the walk: the directories beneath it that
    are reached through kept names and no symbolic link. *)
Lemma _walk_sound n :
  forall top root ds fns,
    In (root, ds, fns) (_walk keep top n) ->
    exists rest sub,
      root = top ++ rest /\ rest ≠ []
      /\ real_dir_at [n] rest sub
      /\ Forall (fun d => keep d = true) rest
      /\ ds = dirs_of sub /\ fns = nondirs_of sub.
Proof.
  induction n as [kind name | is_link d entries IH] using node_induction;
    intros top root ds fns Hin; simpl in Hin; [contradiction|].
  destruct (keep d) eqn:Hkeep; [|contradiction].
  destruct is_link; [contradiction|].
  destruct Hin as [Hhead | Htail].
  - injection Hhead as <- <- <-. exists [d], entries.
    repeat split; try done.
    + apply real_dir_below with entries; [by left | constructor].
    + by constructor.
  - apply in_flat_map in Htail as (m & Hm & Hin).
    rewrite List.Forall_forall in IH.
    destruct (IH m Hm _ _ _ _ Hin)
      as (rest & sub & -> & Hne & Hreal & Hkept & -> & ->).
    exists (d :: rest), sub. repeat split; try done.
    + by rewrite <- app_assoc.
    + apply real_dir_below with entries; [by left|].
      by apply real_dir_at_weaken with m.
    + by constructor.
Qed.

Lemma os_walk_sound entries root ds fns :
  In (root, ds, fns) (os_walk keep entries) ->
  exists sub,
    real_dir_at entries root sub
    /\ Forall (fun d => keep d = true) root
    /\ ds = dirs_of sub /\ fns = nondirs_of sub.
Proof.
  intros [Hhead | Htail].
  - injection Hhead as <- <- <-. exists entries.
    repeat split; constructor.
  - apply in_flat_map in Htail as (m & Hm & Hin).
    apply _walk_sound in Hin
      as (rest & sub & -> & Hne & Hreal & Hkept & -> & ->).
    exists sub. repeat split; try done.
    by apply real_dir_at_weaken with m.
Qed.

Lemma flat_walk_complete entries root sub :
  real_dir_at entries root sub ->
  root ≠ [] ->
  Forall (fun d => keep d = true) root ->
  forall top,
    In (top ++ root, dirs_of sub, nondirs_of sub)
       (flat_map (_walk keep top) entries).
Proof.
  induction 1 as [entries | entries d sub0 ds sub' Hd Hreal IH];
    intros Hne Hkept top; [contradiction|].
  apply Forall_cons in Hkept as [Hk Hkept].
  apply in_flat_map. exists (Dir false d sub0). split; [assumption|].
  simpl. rewrite Hk. destruct ds as [|d' ds].
  - inversion Hreal; subst. by left.
  - right. replace (top ++ d :: d' :: ds) with ((top ++ [d]) ++ d' :: ds)
      by (by rewrite <- app_assoc).
    apply IH; [discriminate | assumption].
Qed.

Lemma os_walk_complete entries root sub :
  real_dir_at entries root sub ->
  Forall (fun d => keep d = true) root ->
  In (root, dirs_of sub, nondirs_of sub) (os_walk keep entries).
Proof.
  intros Hreal Hkept. destruct root as [|d ds].
  - inversion Hreal; subst. by left.
  - right. by apply (flat_walk_complete _ _ _ Hreal) with (top := []).
Qed.

End Walk.

(** ** [_get_relative_files] *)

Section Scan.

Variable fnmatch : string -> string -> bool.
Variable fs : FileSystem.
Variable self : ProjectComparator.

Lemma elem_of_add_files s files root ds fns :
  s ∈ add_files fnmatch self files (root, ds, fns)
  <-> s ∈ files
      \/ exists f, In f fns
           /\ _should_ignore fnmatch self (root ++ [f]) = false
           /\ s = path_str (root ++ [f]).
Proof.
  unfold add_files. revert files.
  induction fns as [|g fns IH]; intros files; simpl.
  - split; [by left | intros [H | (f & [] & _)]; exact H].
  - rewrite IH. destruct (_should_ignore fnmatch self (root ++ [g])) eqn:E.
    + split.
      * intros [H | (f & Hin & Hf & ->)]; [by left|].
        right. exists f. by repeat split; [right|..].
      * intros [H | (f & [<- | Hin] & Hf & ->)]; [by left | congruence |].
        right. by exists f.
    + rewrite elem_of_union, elem_of_singleton. split.
      * intros [[-> | H] | (f & Hin & Hf & ->)].
        -- right. exists g. by repeat split; [left|..].
        -- by left.
        -- right. exists f. by repeat split; [right|..].
      * intros [H | (f & [<- | Hin] & Hf & ->)].
        -- left. by right.
        -- left. by left.
        -- right. by exists f.
Qed.

Lemma elem_of_scan_items s items acc :
  s ∈ fold_left (add_files fnmatch self) items acc
  <-> s ∈ acc
      \/ exists root ds fns f,
           In (root, ds, fns) items /\ In f fns
           /\ _should_ignore fnmatch self (root ++ [f]) = false
           /\ s = path_str (root ++ [f]).
Proof.
  revert acc. induction items as [|[[root ds] fns] items IH]; intros acc;
    cbn [fold_left].
  - split; [by left | intros [H | (? & ? & ? & ? & [] & _)]; exact H].
  - rewrite IH, elem_of_add_files. split.
    + intros [[H | (f & Hin & Hf & ->)] | (r & d & fn & f & Hin & Hrest)].
      * by left.
      * right. exists root, ds, fns, f. by repeat split; [left|..].
      * right. exists r, d, fn, f. by split; [right|].
    + intros [H | (r & d & fn & f & [Heq | Hin] & Hf & Hi & ->)].
      * left. by left.
      * injection Heq as <- <- <-. left. right. by exists f.
      * right. by exists r, d, fn, f.
Qed.

(** The scanned set: the strings of the paths [root/f], [root] a directory
    reached through kept real directories, [f] a non-directory entry of it
    that the filter lets through. *)
Lemma elem_of_get_relative_files s base_path :
  s ∈ _get_relative_files fnmatch fs self base_path
  <-> exists root sub kind f,
        real_dir_at (fs_entries fs base_path) root sub
        /\ Forall (fun d => keep_dir self d = true) root
        /\ In (File kind f) sub
        /\ _should_ignore fnmatch self (root ++ [f]) = false
        /\ s = path_str (root ++ [f]).
Proof.
  unfold _get_relative_files. rewrite elem_of_scan_items. split.
  - intros [H | (root & ds & fns & f & Hitem & Hin & Hf & ->)];
      [set_solver|].
    apply os_walk_sound in Hitem as (sub & Hreal & Hkept & -> & ->).
    apply in_nondirs_of in Hin as [kind Hin].
    by exists root, sub, kind, f.
  - intros (root & sub & kind & f & Hreal & Hkept & Hin & Hf & ->).
    right. exists root, (dirs_of sub), (nondirs_of sub), f.
    repeat split; try done.
    + by apply os_walk_complete.
    + apply in_nondirs_of. by exists kind.
Qed.

End Scan.

(** ** Names met by the scan *)

Lemma names_ok_in entries n :
  names_ok entries = true -> In n entries -> node_names_ok n = true.
Proof. unfold names_ok. rewrite forallb_forall. auto. Qed.

Lemma file_at_names_ok entries ds f :
  names_ok entries = true ->
  file_at entries ds f ->
  Forall (fun c => name_ok c = true) (ds ++ [f]).
Proof.
  intros Hok H. induction H as [entries kind f Hin
                               | entries is_link d sub ds f Hin Hat IH].
  - apply (names_ok_in _ _ Hok) in Hin. simpl in *. by repeat constructor.
  - apply (names_ok_in _ _ Hok) in Hin. simpl in Hin.
    apply andb_true_iff in Hin as [Hd Hsub]. simpl. constructor; auto.
Qed.

Lemma real_dir_at_file_at entries root sub kind f :
  real_dir_at entries root sub ->
  In (File kind f) sub ->
  file_at entries root f.
Proof.
  induction 1 as [entries | entries d sub0 ds sub' Hd Hreal IH]; intros Hin.
  - by apply file_here with kind.
  - apply file_below with false sub0; auto.
Qed.

Lemma keep_dir_true self d : keep_dir self d = true <-> d ∉ ignore_dirs self.
Proof.
  unfold keep_dir, set_mem. rewrite negb_true_iff. apply bool_decide_eq_false.
Qed.

(** ** Pruning and symbolic links *)

(** C7. The walk enters no directory whose name is in [ignore_dirs], at any
    depth, and no file beneath such a directory is in the scanned set,
    whatever the file filter would say of it.  (Names of directory entries
    do not contain the separator.) *)
Theorem ignored_directories_are_pruned
  (fnmatch : string -> string -> bool) (fs : FileSystem)
  (self : ProjectComparator) (base_path : string) :
  (forall root ds fns,
     In (root, ds, fns) (os_walk (keep_dir self) (fs_entries fs base_path)) ->
     forall d, In d root -> d ∉ ignore_dirs self)
  /\ (names_ok (fs_entries fs base_path) = true ->
      forall ds f,
        file_at (fs_entries fs base_path) ds f ->
        (exists d, In d ds /\ d ∈ ignore_dirs self) ->
        path_str (ds ++ [f]) ∉ _get_relative_files fnmatch fs self base_path).
Proof.
  split.
  - intros root ds fns Hitem d Hd.
    apply os_walk_sound in Hitem as (sub & _ & Hkept & _).
    rewrite List.Forall_forall in Hkept. by apply keep_dir_true, Hkept.
  - intros Hok ds f Hat (d & Hd & Hignored) Hin.
    apply elem_of_get_relative_files in Hin
      as (root & sub & kind & g & Hreal & Hkept & Hg & _ & Heq).
    apply path_str_inj in Heq.
    + apply app_inj_tail in Heq as [-> _].
      rewrite List.Forall_forall in Hkept.
      by apply (proj1 (keep_dir_true self d) (Hkept d Hd)).
    + by apply file_at_names_ok with (fs_entries fs base_path).
    + apply file_at_names_ok with (fs_entries fs base_path); [assumption|].
      by apply real_dir_at_file_at with sub kind.
    + by destruct ds.
    + by destruct root.
Qed.

(** The witness of C7: [node_modules] is ignored, and [x.js] beneath it,
    two levels down, is not in the scanned set. *)
Lemma ignored_directories_are_pruned_witness :
  path_str (["lib"; "node_modules"] ++ ["x.js"])
  ∉ _get_relative_files posix_fnmatch
      {| fs_entries := fun _ =>
           [File Regular "a.js";
            Dir false "lib"
              [Dir false "node_modules" [File Regular "x.js"];
               File Regular "b.js"]];
         fs_read := fun _ => Ok "" |}
      {| path1 := "/A"; path2 := "/B"; ignore_ext := ∅; only_ext := ∅;
         ignore_dirs := {[ "node_modules" ]}; ignore_files := ∅ |}
      "/A".
Proof.
  refine (proj2 (ignored_directories_are_pruned posix_fnmatch
                   {| fs_entries := fun _ =>
                        [File Regular "a.js";
                         Dir false "lib"
                           [Dir false "node_modules" [File Regular "x.js"];
                            File Regular "b.js"]];
                      fs_read := fun _ => Ok "" |}
                   {| path1 := "/A"; path2 := "/B"; ignore_ext := ∅;
                      only_ext := ∅; ignore_dirs := {[ "node_modules" ]};
                      ignore_files := ∅ |}
                   "/A") _ ["lib"; "node_modules"] "x.js" _ _).
  - reflexivity.
  - simpl. eapply file_below; [right; left; reflexivity|].
    eapply file_below; [left; reflexivity|].
    eapply file_here. left. reflexivity.
  - exists "node_modules". split; [right; left; reflexivity|].
    simpl. apply elem_of_singleton. reflexivity.
Defined.

(** C8, as the code has it. The walk visits only directories reached through
    directories that are not symbolic links, so it never descends into a
    symlinked directory; every non-directory entry of a visited directory,
    of whatever kind (regular file, symbolic link to a file, dangling link,
    device, pipe, socket), is taken as a file and is in the scanned set when
    the file filter lets it through. *)
Theorem symlinks_listed_not_followed
  (fnmatch : string -> string -> bool) (fs : FileSystem)
  (self : ProjectComparator) (base_path : string) :
  (forall root ds fns,
     In (root, ds, fns) (os_walk (keep_dir self) (fs_entries fs base_path)) ->
     exists sub,
       real_dir_at (fs_entries fs base_path) root sub
       /\ ds = dirs_of sub /\ fns = nondirs_of sub)
  /\ (forall root sub kind f,
        real_dir_at (fs_entries fs base_path) root sub ->
        (forall d, In d root -> d ∉ ignore_dirs self) ->
        In (File kind f) sub ->
        _should_ignore fnmatch self (root ++ [f]) = false ->
        path_str (root ++ [f]) ∈ _get_relative_files fnmatch fs self base_path).
Proof.
  split.
  - intros root ds fns Hitem.
    apply os_walk_sound in Hitem as (sub & Hreal & _ & -> & ->).
    by exists sub.
  - intros root sub kind f Hreal Hkept Hin Hf.
    apply elem_of_get_relative_files. exists root, sub, kind, f.
    repeat split; try done.
    apply List.Forall_forall. intros d Hd. by apply keep_dir_true, Hkept.
Qed.

(** The witness of the amended C8: a device file in a subdirectory is in the
    scanned set. *)
Lemma symlinks_listed_not_followed_witness :
  path_str (["dev"] ++ ["tty0"])
  ∈ _get_relative_files posix_fnmatch
      {| fs_entries := fun _ =>
           [Dir false "dev" [File Device "tty0"];
            Dir true "loop" [File Regular "deep.txt"]];
         fs_read := fun _ => Ok "" |}
      (plain "/A" "/B") "/A".
Proof.
  refine (proj2 (symlinks_listed_not_followed posix_fnmatch
                   {| fs_entries := fun _ =>
                        [Dir false "dev" [File Device "tty0"];
                         Dir true "loop" [File Regular "deep.txt"]];
                      fs_read := fun _ => Ok "" |}
                   (plain "/A" "/B") "/A")
            ["dev"] [File Device "tty0"] Device "tty0" _ _ _ _).
  - simpl. eapply real_dir_below; [left; reflexivity | constructor].
  - intros d _. simpl. apply not_elem_of_empty.
  - left. reflexivity.
  - reflexivity.
Defined.

(** C8 as stated fails: a symbolic link to a regular file is in the scanned
    set. *)
Lemma symlink_to_file_is_scanned :
  "link.txt"
  ∈ _get_relative_files posix_fnmatch
      {| fs_entries := fun _ => [File SymlinkToFile "link.txt"];
         fs_read := fun _ => Ok "" |}
      (plain "/A" "/B") "/A".
Proof.
  apply elem_of_get_relative_files.
  exists [], [File SymlinkToFile "link.txt"], SymlinkToFile, "link.txt".
  repeat split.
  - constructor.
  - constructor.
  - left. reflexivity.
Qed.

(** ** Decoding *)

Lemma bind_ok {A B} (a : A) (k : A -> result B) : (x ← Ok a; k x) = k a.
Proof. reflexivity. Qed.

Lemma bind_raise {A B} (e : exn) (k : A -> result B) :
  (x ← Raise e; k x) = Raise e.
Proof. reflexivity. Qed.

(** Under [errors='ignore'] the decoder never raises, and its output is its
    input with some bytes left out. *)
Lemma decode_ignore_total s :
  forall p, exists t,
    utf8_decode_from Ignore p s = Ok t
    /\ sublist (list_ascii_of_string t) (list_ascii_of_string s).
Proof.
  induction s as [|b s IH]; intros p.
  - exists "". split; [reflexivity | constructor].
  - assert (Hcopy : forall k, exists t,
              (t ← utf8_decode_from Ignore (Copy k) s; Ok (String b t)) = Ok t
              /\ sublist (list_ascii_of_string t)
                   (list_ascii_of_string (String b s))).
    { intros k. destruct (IH (Copy k)) as (t & -> & Hsub).
      exists (String b t). split; [reflexivity|]. by constructor. }
    assert (Hskip : forall k, exists t,
              utf8_decode_from Ignore (Skip k) s = Ok t
              /\ sublist (list_ascii_of_string t)
                   (list_ascii_of_string (String b s))).
    { intros k. destruct (IH (Skip k)) as (t & -> & Hsub).
      exists t. split; [reflexivity|]. by constructor. }
    assert (Hhead : exists t,
              match utf8_classify (byte_val b) (bytes_of s) with
              | Valid n =>
                  t ← utf8_decode_from Ignore (Copy (Nat.pred n)) s;
                  Ok (String b t)
              | Invalid n => utf8_decode_from Ignore (Skip (Nat.pred n)) s
              end = Ok t
              /\ sublist (list_ascii_of_string t)
                   (list_ascii_of_string (String b s))).
    { destruct (utf8_classify _ _); [apply Hcopy | apply Hskip]. }
    destruct p as [[|k] | [|k]]; simpl; auto.
Qed.

(** Where the strict decoder succeeds, the permissive one gives the same
    text. *)
Lemma decode_strict_ignore s :
  forall p t,
    utf8_decode_from Strict p s = Ok t -> utf8_decode_from Ignore p s = Ok t.
Proof.
  induction s as [|b s IH]; intros p t H; [exact H|].
  assert (Hcopy : forall k,
            (t ← utf8_decode_from Strict (Copy k) s; Ok (String b t)) = Ok t ->
            (t ← utf8_decode_from Ignore (Copy k) s; Ok (String b t)) = Ok t).
  { intros k Hk. destruct (utf8_decode_from Strict (Copy k) s) as [u|] eqn:E;
      [|discriminate Hk]. by rewrite (IH _ _ E). }
  destruct p as [[|k] | [|k]]; simpl in *; auto;
    destruct (utf8_classify _ _); auto; discriminate H.
Qed.

Lemma readlines_ignore_ok data :
  exists lines, readlines Ignore (Ok data) = Ok lines.
Proof.
  unfold readlines, utf8_decode.
  destruct (decode_ignore_total data (Copy 0)) as (t & Ht & _).
  rewrite bind_ok, Ht, bind_ok. eauto.
Qed.

(** ** [sorted] *)

Lemma elem_of_sorted q (s : gset string) : q ∈ sorted s <-> q ∈ s.
Proof.
  unfold sorted. rewrite <- elem_of_elements, !list_elem_of_In. split.
  - apply Permutation_in. symmetry. apply StrSort.Permuted_sort.
  - apply Permutation_in. apply StrSort.Permuted_sort.
Qed.

(** ** [_compare_file_content] and [compare] *)

Section CompareProperties.

Variable fnmatch : string -> string -> bool.
Variable unified_diff :
  list string -> list string -> string -> string -> list string.
Variable fs : FileSystem.
Variable self : ProjectComparator.

Local Abbreviation content := (_compare_file_content unified_diff fs self).
Local Abbreviation record := (diff_record unified_diff fs self).
Local Abbreviation files1 := (_get_relative_files fnmatch fs self (path1 self)).
Local Abbreviation files2 := (_get_relative_files fnmatch fs self (path2 self)).
Local Abbreviation run := (compare fnmatch unified_diff fs self).

(** The first read raises: the handler answers, the second file is not
    opened. *)
Lemma content_left_fails rel_path e :
  fs_read fs (path_join (path1 self) rel_path) = Raise e ->
  content rel_path = Ok (Some [error_line e]).
Proof. intros H. unfold _compare_file_content. rewrite H. reflexivity. Qed.

Lemma content_right_fails rel_path data e :
  fs_read fs (path_join (path1 self) rel_path) = Ok data ->
  fs_read fs (path_join (path2 self) rel_path) = Raise e ->
  content rel_path = Ok (Some [error_line e]).
Proof.
  intros H1 H2. unfold _compare_file_content. rewrite H1, H2.
  destruct (readlines_ignore_ok data) as [lines ->]. reflexivity.
Qed.

Lemma content_both_read rel_path lines1 lines2 :
  readlines Ignore (fs_read fs (path_join (path1 self) rel_path)) = Ok lines1 ->
  readlines Ignore (fs_read fs (path_join (path2 self) rel_path)) = Ok lines2 ->
  content rel_path =
    Ok (let diff :=
          unified_diff lines1 lines2
            ("Project1/" +:+ rel_path) ("Project2/" +:+ rel_path) in
        if 0 <? Z.of_nat (length diff) then Some diff else None).
Proof.
  intros H1 H2. unfold _compare_file_content. rewrite H1, H2. reflexivity.
Qed.

(** No exception leaves [_compare_file_content]. *)
Lemma content_total rel_path : exists diff, content rel_path = Ok diff.
Proof.
  destruct (fs_read fs (path_join (path1 self) rel_path)) as [d1|e1] eqn:E1.
  - destruct (fs_read fs (path_join (path2 self) rel_path)) as [d2|e2] eqn:E2.
    + destruct (readlines_ignore_ok d1) as [l1 H1].
      destruct (readlines_ignore_ok d2) as [l2 H2].
      rewrite <- E1 in H1. rewrite <- E2 in H2.
      rewrite (content_both_read _ _ _ H1 H2). eauto.
    + rewrite (content_right_fails _ _ _ E1 E2). eauto.
  - rewrite (content_left_fails _ _ E1). eauto.
Qed.

(** The record is never the empty sequence. *)
Lemma record_not_empty rel_path : record rel_path ≠ Some [].
Proof.
  unfold diff_record. destruct (content rel_path) as [[[|l ls]|]|]; discriminate.
Qed.

Lemma compare_one_spec st rel_path :
  compare_one unified_diff fs self st rel_path =
    Ok {| only_in_path1 := only_in_path1 st;
          only_in_path2 := only_in_path2 st;
          diff_files :=
            match record rel_path with
            | Some d => <[rel_path := d]> (diff_files st)
            | None => diff_files st
            end |}.
Proof.
  unfold compare_one, diff_record.
  destruct (content_total rel_path) as [diff ->]. rewrite bind_ok.
  destruct st as [o1 o2 df]. simpl.
  destruct diff as [[|l ls]|]; reflexivity.
Qed.

(** The loop of [compare] runs to its end and leaves, for each path it
    meets, the record of that path. *)
Lemma loop_spec paths :
  forall st, exists st',
    for_each (compare_one unified_diff fs self) paths st = Ok st'
    /\ only_in_path1 st' = only_in_path1 st
    /\ only_in_path2 st' = only_in_path2 st
    /\ forall q,
         diff_files st' !! q =
           if decide (q ∈ paths) then
             match record q with
             | Some d => Some d
             | None => diff_files st !! q
             end
           else diff_files st !! q.
Proof.
  induction paths as [|p paths IH]; intros st.
  - exists st. do 3 (split; [reflexivity|]).
    intros q. destruct (decide (q ∈ [])) as [H|H]; [|reflexivity].
    by apply not_elem_of_nil in H.
  - simpl. rewrite compare_one_spec, bind_ok.
    destruct (IH {| only_in_path1 := only_in_path1 st;
                    only_in_path2 := only_in_path2 st;
                    diff_files :=
                      match record p with
                      | Some d => <[p := d]> (diff_files st)
                      | None => diff_files st
                      end |})
      as (st' & -> & H1 & H2 & Hd).
    exists st'. repeat split; try assumption. intros q. rewrite Hd. simpl.
    destruct (decide (q ∈ paths)) as [Hq | Hq].
    + rewrite decide_True by (by right).
      destruct (record q) as [d|] eqn:Eq; [reflexivity|].
      destruct (decide (q = p)) as [-> | Hne]; [by rewrite Eq|].
      destruct (record p); [by rewrite lookup_insert_ne | reflexivity].
    + destruct (decide (q = p)) as [-> | Hne].
      * rewrite decide_True by (by left).
        destruct (record p) as [d|]; [by rewrite lookup_insert_eq | reflexivity].
      * rewrite decide_False by (by intros [? | ?]%elem_of_cons).
        destruct (record p); [by rewrite lookup_insert_ne | reflexivity].
Qed.

(** [compare] returns, with the two differences of the scanned sets and, for
    each common path, its record. *)
Lemma compare_spec st0 :
  exists st,
    run st0 = Ok st
    /\ only_in_path1 st = files1 ∖ files2
    /\ only_in_path2 st = files2 ∖ files1
    /\ forall q,
         diff_files st !! q =
           if decide (q ∈ files1 ∩ files2) then
             match record q with
             | Some d => Some d
             | None => diff_files st0 !! q
             end
           else diff_files st0 !! q.
Proof.
  unfold compare.
  destruct (loop_spec (sorted (files1 ∩ files2))
              {| only_in_path1 := files1 ∖ files2;
                 only_in_path2 := files2 ∖ files1;
                 diff_files := diff_files st0 |})
    as (st & Hrun & H1 & H2 & Hd).
  exists st. repeat split; try assumption. intros q. rewrite Hd. simpl.
  destruct (decide (q ∈ sorted (files1 ∩ files2))) as [H | H];
    [rewrite decide_True | rewrite decide_False]; try reflexivity;
    by rewrite <- elem_of_sorted.
Qed.

End CompareProperties.

(** ** [difflib] on two equal sequences *)

Module DifflibFacts.
Import Difflib.

Lemma stretch_nat_bounds a i : 0 <= stretch_nat a i <= Z.of_nat i + 1.
Proof.
  induction i as [|i IH]; simpl stretch_nat;
    destruct (is_popular a _); lia.
Qed.

Lemma stretch_bounds a i : -1 <= i -> 0 <= stretch a i <= i + 1.
Proof.
  intros Hi. unfold stretch. destruct (Z.ltb_spec i 0); [lia|].
  pose proof (stretch_nat_bounds a (Z.to_nat i)). lia.
Qed.

Lemma stretch_nonneg a i : 0 <= stretch a i.
Proof.
  unfold stretch. destruct (Z.ltb_spec i 0); [lia|].
  apply stretch_nat_bounds.
Qed.

Lemma stretch_unfold a i :
  0 <= i ->
  stretch a i =
    if is_popular a (item a i) then 0 else stretch a (i - 1) + 1.
Proof.
  intros Hi. unfold stretch at 1. destruct (Z.ltb_spec i 0); [lia|].
  destruct (Z.to_nat i) as [|i'] eqn:E; simpl stretch_nat.
  - replace (Z.of_nat 0) with i by lia.
    destruct (is_popular a (item a i)); [reflexivity|].
    unfold stretch. destruct (Z.ltb_spec (i - 1) 0); lia.
  - replace (Z.of_nat (S i')) with i by lia.
    destruct (is_popular a (item a i)); [reflexivity|].
    unfold stretch. destruct (Z.ltb_spec (i - 1) 0); [lia|].
    replace (Z.to_nat (i - 1)) with i' by lia. lia.
Qed.

Lemma indices_from_spec elt b : forall pos j,
  j ∈ indices_from elt b pos ->
  pos <= j < pos + len b /\ item b (j - pos) = elt.
Proof.
  unfold len. induction b as [|x b IH]; intros pos j Hj; simpl in Hj.
  - by apply not_elem_of_nil in Hj.
  - assert (Htail : j ∈ indices_from elt b (pos + 1) ->
              pos <= j < pos + Z.of_nat (length (x :: b))
              /\ item (x :: b) (j - pos) = elt).
    { intros H. apply IH in H as [Hr Hi]. simpl length. split; [lia|].
      unfold item in *. replace (Z.to_nat (j - pos)) with (S (Z.to_nat (j - (pos + 1)))) by lia.
      exact Hi. }
    destruct (String.eqb_spec x elt) as [-> | Hne]; [|auto].
    apply elem_of_cons in Hj as [-> | Hj]; [|auto].
    simpl length. split; [lia|]. unfold item.
    replace (Z.to_nat (pos - pos)) with O by lia. reflexivity.
Qed.

Lemma indices_from_complete elt b : forall pos (idx : nat),
  b !! idx = Some elt -> pos + Z.of_nat idx ∈ indices_from elt b pos.
Proof.
  induction b as [|x b IH]; intros pos idx H; [discriminate H|].
  destruct idx as [|idx]; simpl in *.
  - injection H as ->. rewrite String.eqb_refl.
    change (Z.of_nat 0) with 0. rewrite Z.add_0_r. by left.
  - replace (pos + Z.of_nat (S idx)) with ((pos + 1) + Z.of_nat idx) by lia.
    destruct (String.eqb x elt); [right|]; by apply IH.
Qed.

Lemma indices_from_sorted elt b : forall pos,
  StronglySorted Z.lt (indices_from elt b pos).
Proof.
  induction b as [|x b IH]; intros pos; simpl; [constructor|].
  destruct (String.eqb x elt); [|apply IH].
  constructor; [apply IH|]. apply List.Forall_forall. intros j Hj.
  apply list_elem_of_In, indices_from_spec in Hj. lia.
Qed.

Lemma scan_row_same a i prev :
  0 <= i < len a ->
  row_ok a (i - 1) prev ->
  is_popular a (item a i) = false ->
  forall js new besti bestj bestsize new' best',
    StronglySorted Z.lt js ->
    (forall j, j ∈ js -> 0 <= j < len a /\ item a j = item a i) ->
    (forall j v, new !! j = Some v -> v <= stretch a i /\ v <= stretch a j) ->
    (i ∈ js \/ default 0 (new !! i) = stretch a i) ->
    besti = bestj -> 0 <= besti -> 0 <= bestsize ->
    besti + bestsize <= i + 1 ->
    (forall i', 0 <= i' < i -> stretch a i' <= bestsize) ->
    (i ∈ js \/ stretch a i <= bestsize) ->
    scan_row prev i 0 (len a) js new (besti, bestj, bestsize) = (new', best') ->
    row_ok a i new' /\ best_ok a (i + 1) best'.
Proof.
  intros Hi [Hprev Hdiag] Hunpop.
  induction js as [|j js IH];
    intros new besti bestj bestsize new' best' Hsorted Hjs Hnew Hnewi
      Heq Hbi Hbs Hend Hseen Hseeni Hrun; simpl in Hrun.
  - injection Hrun as <- <-. split.
    + split; [assumption|]. destruct Hnewi as [H | H]; [|assumption].
      by apply not_elem_of_nil in H.
    + repeat split; try assumption. intros i' Hi'.
      destruct (decide (i' = i)) as [-> | Hne]; [|apply Hseen; lia].
      destruct Hseeni as [H | H]; [|assumption].
      by apply not_elem_of_nil in H.
  - destruct (Hjs j) as [Hj Hitem]; [by left|].
    apply StronglySorted_inv in Hsorted as [Hsorted Hbelow].
    rewrite List.Forall_forall in Hbelow.
    destruct (Z.ltb_spec j 0) as [? | _]; [lia|].
    destruct (Z.leb_spec (len a) j) as [? | _]; [lia|].
    set (k := default 0 (prev !! (j - 1)) + 1) in *.
    assert (Hk : k <= stretch a i /\ k <= stretch a j
                 /\ (j = i -> k = stretch a i)).
    { rewrite (stretch_unfold a i), Hunpop by lia.
      rewrite (stretch_unfold a j), Hitem, Hunpop by lia. subst k.
      repeat split.
      - destruct (prev !! (j - 1)) as [v|] eqn:E; simpl.
        + apply Hprev in E. lia.
        + pose proof (stretch_nonneg a (i - 1)). lia.
      - destruct (prev !! (j - 1)) as [v|] eqn:E; simpl.
        + apply Hprev in E. lia.
        + pose proof (stretch_nonneg a (j - 1)). lia.
      - intros ->. rewrite Hdiag. reflexivity. }
    destruct Hk as (Hki & Hkj & Hkd).
    assert (Hnot : i ∈ j :: js -> j <> i -> i ∈ js).
    { intros [-> | Hin]%elem_of_cons Hne; [contradiction | assumption]. }
    assert (Hnew' : forall j0 v,
              <[j := k]> new !! j0 = Some v ->
              v <= stretch a i /\ v <= stretch a j0).
    { intros j0 v. destruct (decide (j = j0)) as [<- | Hne].
      - rewrite lookup_insert_eq. intros [= <-]. by split.
      - rewrite lookup_insert_ne by assumption. apply Hnew. }
    assert (Hnewi' : i ∈ js \/ default 0 (<[j := k]> new !! i) = stretch a i).
    { destruct (decide (j = i)) as [-> | Hne].
      - right. rewrite lookup_insert_eq. simpl. by apply Hkd.
      - rewrite lookup_insert_ne by assumption.
        destruct Hnewi as [Hin | Hdone]; [left; by apply Hnot | by right]. }
    destruct (Z.ltb_spec bestsize k) as [Hlt | Hge].
    + assert (j = i) as ->.
      { destruct (Z.lt_trichotomy j i) as [Hji | [Hji | Hji]];
          [| assumption |].
        - specialize (Hseen j). lia.
        - destruct Hseeni as [Hin | Hdone]; [|lia].
          apply elem_of_cons in Hin as [-> | Hin]; [lia|].
          apply list_elem_of_In, Hbelow in Hin. lia. }
      pose proof (stretch_bounds a i).
      refine (IH _ _ _ _ _ _ Hsorted _ Hnew' Hnewi' _ _ _ _ _ _ Hrun).
      * intros j0 Hj0. apply Hjs. by right.
      * reflexivity.
      * lia.
      * lia.
      * lia.
      * intros i' Hi'. specialize (Hseen i' Hi'). lia.
      * right. lia.
    + refine (IH _ _ _ _ _ _ Hsorted _ Hnew' Hnewi' Heq Hbi Hbs Hend Hseen _
                Hrun).
      * intros j0 Hj0. apply Hjs. by right.
      * destruct (decide (j = i)) as [-> | Hne].
        -- right. rewrite <- Hkd by reflexivity. assumption.
        -- destruct Hseeni as [Hin | Hdone]; [left; by apply Hnot | by right].
Qed.

Lemma item_lookup a i : 0 <= i < len a -> a !! Z.to_nat i = Some (item a i).
Proof.
  unfold len, item. intros Hi.
  destruct (a !! Z.to_nat i) eqn:E; [reflexivity|].
  apply lookup_ge_None in E. lia.
Qed.

Lemma scan_rows_same a : forall count i j2len best,
  0 <= i -> i + Z.of_nat count = len a ->
  row_ok a (i - 1) j2len ->
  best_ok a i best ->
  best_ok a (len a) (scan_rows a a 0 (len a) count i j2len best).
Proof.
  induction count as [|count IH]; intros i j2len best Hi Hcount Hrow Hbest.
  - simpl. replace (len a) with i by lia. assumption.
  - simpl.
    destruct (scan_row j2len i 0 (len a) (b2j a (item a i)) ∅ best)
      as [new best'] eqn:Hrun.
    destruct best as [[besti bestj] bestsize].
    destruct Hbest as (Heq & Hbi & Hbs & Hend & Hseen).
    assert (Hnext : row_ok a i new /\ best_ok a (i + 1) best').
    { unfold b2j in Hrun. destruct (is_popular a (item a i)) eqn:Hpop.
      - simpl in Hrun. injection Hrun as <- <-.
        assert (Hzero : stretch a i = 0).
        { by rewrite stretch_unfold, Hpop by lia. }
        split.
        + split; [intros j v H; by rewrite lookup_empty in H|].
          rewrite lookup_empty. simpl. by rewrite Hzero.
        + repeat split; try assumption; try lia. intros i' Hi'.
          destruct (decide (i' = i)) as [-> | Hne]; [lia | apply Hseen; lia].
      - apply (scan_row_same a i j2len) in Hrun; try assumption; try lia.
        + apply indices_from_sorted.
        + intros j Hj. apply indices_from_spec in Hj as [Hr Hitem].
          rewrite Z.sub_0_r in Hitem. split; [lia | assumption].
        + intros j v H. by rewrite lookup_empty in H.
        + left. replace i with (0 + Z.of_nat (Z.to_nat i)) at 1 by lia.
          apply indices_from_complete, item_lookup. lia.
        + left. replace i with (0 + Z.of_nat (Z.to_nat i)) at 1 by lia.
          apply indices_from_complete, item_lookup. lia. }
    destruct Hnext as [Hrow' Hbest'].
    apply IH; try assumption; try lia.
    by replace (i + 1 - 1) with i by lia.
Qed.

Lemma extend_down_same a junk : forall steps s k,
  0 <= s -> steps = Z.to_nat s ->
  extend_down a a 0 0 junk steps (s, s, k)
  = if junk then (s, s, k) else (0, 0, k + s).
Proof.
  induction steps as [|steps IH]; intros s k Hs Hsteps; simpl.
  - replace s with 0 by lia. destruct junk; [reflexivity|].
    by rewrite Z.add_0_r.
  - destruct (Z.ltb_spec 0 s); [|lia]. unfold isbjunk.
    rewrite String.eqb_refl. destruct junk; simpl; [reflexivity|].
    rewrite IH by lia. f_equal. lia.
Qed.

Lemma extend_up_same a junk : forall steps k,
  0 <= k <= len a -> steps = Z.to_nat (len a - k) ->
  extend_up a a (len a) (len a) junk steps (0, 0, k)
  = if junk then (0, 0, k) else (0, 0, len a).
Proof.
  induction steps as [|steps IH]; intros k Hk Hsteps; simpl.
  - destruct junk; [reflexivity|]. f_equal. lia.
  - rewrite !Z.add_0_l. destruct (Z.ltb_spec k (len a)); [|lia].
    unfold isbjunk. rewrite String.eqb_refl.
    destruct junk; simpl; [reflexivity|].
    rewrite IH by lia. reflexivity.
Qed.

(** The longest match of a sequence with itself is the whole of it. *)
Lemma find_longest_match_same a :
  find_longest_match a a 0 (len a) 0 (len a) = (0, 0, len a).
Proof.
  unfold find_longest_match.
  pose proof (scan_rows_same a (Z.to_nat (len a - 0)) 0 ∅ (0, 0, 0)) as H.
  destruct (scan_rows a a 0 (len a) (Z.to_nat (len a - 0)) 0 ∅ (0, 0, 0))
    as [[besti bestj] bestsize].
  destruct H as (<- & Hbi & Hbs & Hend & _).
  - lia.
  - unfold len. lia.
  - split; [intros j v H; by rewrite lookup_empty in H|].
    rewrite lookup_empty. reflexivity.
  - repeat split; try lia.
  - cbv beta zeta.
    change (down_steps 0 (besti, besti, bestsize))
      with (Z.to_nat (besti - 0)).
    rewrite (extend_down_same a false _ besti bestsize) by lia.
    change (up_steps (len a) (0, 0, bestsize + besti))
      with (Z.to_nat (len a - (0 + (bestsize + besti)))).
    rewrite (extend_up_same a false _ (bestsize + besti)) by lia.
    change (down_steps 0 (0, 0, len a)) with (Z.to_nat (0 - 0)).
    rewrite (extend_down_same a true _ 0 (len a)) by lia.
    change (up_steps (len a) (0, 0, len a))
      with (Z.to_nat (len a - (0 + len a))).
    rewrite (extend_up_same a true _ (len a)) by (unfold len; lia).
    reflexivity.
Qed.

Lemma match_blocks_done a b turns blocks :
  match_blocks a b turns [] blocks = blocks.
Proof. by destruct turns. Qed.

Lemma get_matching_blocks_same a :
  get_matching_blocks a a =
    if len a =? 0 then [(0, 0, 0)] else [(0, 0, len a); (len a, len a, 0)].
Proof.
  unfold get_matching_blocks.
  replace (2 * length a + 1)%nat with (S (2 * length a)) by lia.
  cbn [match_blocks]. rewrite find_longest_match_same.
  destruct (Z.eqb_spec (len a) 0) as [Hz | Hnz].
  - rewrite match_blocks_done, Hz. reflexivity.
  - change (0 <? 0) with false. cbn [andb].
    destruct (Z.ltb_spec (0 + len a) (len a)) as [? | _]; [lia|].
    cbn [andb]. rewrite match_blocks_done.
    change (sort_matches ([] ++ [(0, 0, len a)])) with [(0, 0, len a)].
    cbn [fold_left collapse_step]. change (0 + 0 =? 0) with true.
    cbn [andb]. rewrite Z.add_0_l.
    destruct (Z.eqb_spec (len a) 0); [contradiction | reflexivity].
Qed.

Lemma get_opcodes_same a :
  get_opcodes a a = if len a =? 0 then [] else [(Equal, 0, len a, 0, len a)].
Proof.
  unfold get_opcodes. rewrite get_matching_blocks_same.
  destruct (Z.eqb_spec (len a) 0) as [Hz | Hnz]; [reflexivity|].
  cbn [fold_left opcode_step]. change (0 <? 0) with false. cbn [andb].
  rewrite Z.add_0_l, Z.add_0_r, Z.ltb_irrefl. cbn [andb app].
  destruct (Z.eqb_spec (len a) 0); [contradiction | reflexivity].
Qed.

Lemma get_grouped_opcodes_same a : get_grouped_opcodes a a 3 = [].
Proof.
  unfold get_grouped_opcodes. rewrite get_opcodes_same.
  destruct (Z.eqb_spec (len a) 0) as [Hz | Hnz]; [reflexivity|].
  cbn [fix_leading fix_trailing List.rev app fold_left group_step is_equal
       andb].
  destruct (Z.ltb_spec (3 + 3)
              (Z.min (len a) (Z.max 0 (len a - 3) + 3) - Z.max 0 (len a - 3)))
    as [Hlt | Hge]; [lia | reflexivity].
Qed.

(** Two equal sequences of lines have no diff. *)
Lemma unified_diff_same a fromfile tofile :
  unified_diff a a fromfile tofile = [].
Proof. unfold unified_diff. by rewrite get_grouped_opcodes_same. Qed.

(** *** The turns given to [match_blocks] are enough *)

Lemma scan_row_within prev i alo ahi blo bhi :
  alo <= i < ahi ->
  (forall j v, prev !! j = Some v -> v <= i - alo /\ v <= j - blo + 1) ->
  forall js new best new' best',
    (forall j v, new !! j = Some v -> v <= i - alo + 1 /\ v <= j - blo + 1) ->
    within alo ahi blo bhi best ->
    scan_row prev i blo bhi js new best = (new', best') ->
    (forall j v, new' !! j = Some v -> v <= i - alo + 1 /\ v <= j - blo + 1)
    /\ within alo ahi blo bhi best'.
Proof.
  intros Hi Hprev. induction js as [|j js IH];
    intros new [[besti bestj] bestsize] new' best' Hnew Hbest Hrun;
    simpl in Hrun.
  - injection Hrun as <- <-. by split.
  - destruct (Z.ltb_spec j blo) as [? | Hlo]; [by apply IH in Hrun|].
    destruct (Z.leb_spec bhi j) as [? | Hhi];
      [injection Hrun as <- <-; by split|].
    set (k := default 0 (prev !! (j - 1)) + 1) in *.
    assert (Hk : k <= i - alo + 1 /\ k <= j - blo + 1).
    { subst k. destruct (prev !! (j - 1)) as [v|] eqn:E; simpl.
      - apply Hprev in E. lia.
      - lia. }
    apply IH in Hrun; [assumption | |].
    + intros j0 v. destruct (decide (j = j0)) as [<- | Hne].
      * rewrite lookup_insert_eq. intros [= <-]. assumption.
      * rewrite lookup_insert_ne by assumption. apply Hnew.
    + destruct (Z.ltb_spec bestsize k); [|assumption].
      destruct Hbest as (? & ? & ? & ? & ?). unfold within. lia.
Qed.

Lemma scan_rows_within a b alo ahi blo bhi : forall count i j2len best,
  alo <= i -> i + Z.of_nat count = ahi ->
  (forall j v, j2len !! j = Some v -> v <= i - alo /\ v <= j - blo + 1) ->
  within alo ahi blo bhi best ->
  within alo ahi blo bhi (scan_rows a b blo bhi count i j2len best).
Proof.
  induction count as [|count IH]; intros i j2len best Hi Hcount Hrow Hbest;
    simpl; [assumption|].
  destruct (scan_row j2len i blo bhi (b2j b (item a i)) ∅ best)
    as [new best'] eqn:Hrun.
  apply (scan_row_within _ _ alo ahi) in Hrun as [Hnew Hbest'];
    try assumption; try lia.
  - apply IH; try assumption; try lia.
    intros j v Hj. apply Hnew in Hj. lia.
  - intros j v Hj. by rewrite lookup_empty in Hj.
Qed.

Lemma extend_down_within a b alo ahi blo bhi junk : forall steps best,
  within alo ahi blo bhi best ->
  within alo ahi blo bhi (extend_down a b alo blo junk steps best).
Proof.
  induction steps as [|steps IH]; intros [[besti bestj] bestsize] Hbest;
    simpl; [assumption|].
  destruct (Z.ltb_spec alo besti); [|assumption].
  destruct (Z.ltb_spec blo bestj); [|assumption].
  destruct (_ && _); [|assumption].
  apply IH. destruct Hbest as (? & ? & ? & ? & ?). unfold within. lia.
Qed.

Lemma extend_up_within a b alo ahi blo bhi junk : forall steps best,
  within alo ahi blo bhi best ->
  within alo ahi blo bhi (extend_up a b ahi bhi junk steps best).
Proof.
  induction steps as [|steps IH]; intros [[besti bestj] bestsize] Hbest;
    simpl; [assumption|].
  destruct (Z.ltb_spec (besti + bestsize) ahi); [|assumption].
  destruct (Z.ltb_spec (bestj + bestsize) bhi); [|assumption].
  destruct (_ && _); [|assumption].
  apply IH. destruct Hbest as (? & ? & ? & ? & ?). unfold within. lia.
Qed.

(** Steps beyond the distance to the lower end are not used. *)
Lemma extend_down_enough a b alo blo junk : forall steps besti bestj bestsize extra,
  besti - alo <= Z.of_nat steps ->
  extend_down a b alo blo junk (steps + extra) (besti, bestj, bestsize)
  = extend_down a b alo blo junk steps (besti, bestj, bestsize).
Proof.
  induction steps as [|steps IH]; intros besti bestj bestsize extra Hsteps.
  - destruct extra as [|extra]; [reflexivity|]. simpl.
    destruct (Z.ltb_spec alo besti); [lia | reflexivity].
  - cbn [Nat.add extend_down].
    destruct (_ && _); [|reflexivity]. apply IH. lia.
Qed.

(** Steps beyond the distance to the upper end are not used. *)
Lemma extend_up_enough a b ahi bhi junk : forall steps besti bestj bestsize extra,
  ahi - (besti + bestsize) <= Z.of_nat steps ->
  extend_up a b ahi bhi junk (steps + extra) (besti, bestj, bestsize)
  = extend_up a b ahi bhi junk steps (besti, bestj, bestsize).
Proof.
  induction steps as [|steps IH]; intros besti bestj bestsize extra Hsteps.
  - destruct extra as [|extra]; [reflexivity|]. simpl.
    destruct (Z.ltb_spec (besti + bestsize) ahi); [lia | reflexivity].
  - cbn [Nat.add extend_up].
    destruct (_ && _); [|reflexivity]. apply IH. lia.
Qed.

(** The match found in a block lies within the block. *)
Lemma find_longest_match_within a b alo ahi blo bhi :
  alo <= ahi -> blo <= bhi ->
  within alo ahi blo bhi (find_longest_match a b alo ahi blo bhi).
Proof.
  intros Ha Hb. unfold find_longest_match.
  apply extend_up_within, extend_down_within, extend_up_within,
    extend_down_within, scan_rows_within; try lia.
  - intros j v Hj. by rewrite lookup_empty in Hj.
  - unfold within. lia.
Qed.

Lemma queue_weight_nonneg queue :
  Forall block_ok queue -> 0 <= queue_weight queue.
Proof.
  induction 1 as [|[[[alo ahi] blo] bhi] queue [Ha Hb] _ IH]; simpl; lia.
Qed.

(** Turns beyond the weight of the queue are not used: the loop has ended
    by then, its queue empty. *)
Lemma match_blocks_enough a b : forall turns queue blocks extra,
  Forall block_ok queue ->
  queue_weight queue <= Z.of_nat turns ->
  match_blocks a b (turns + extra) queue blocks
  = match_blocks a b turns queue blocks.
Proof.
  induction turns as [|turns IH]; intros queue blocks extra Hok Hweight.
  - destruct queue as [|[[[alo ahi] blo] bhi] queue].
    + by rewrite !match_blocks_done.
    + apply Forall_cons in Hok as [[Ha Hb] Hok].
      pose proof (queue_weight_nonneg _ Hok). simpl in Hweight. lia.
  - destruct queue as [|[[[alo ahi] blo] bhi] queue]; [reflexivity|].
    apply Forall_cons in Hok as [[Ha Hb] Hok].
    pose proof (queue_weight_nonneg _ Hok) as Hnonneg.
    pose proof (find_longest_match_within a b alo ahi blo bhi Ha Hb) as Hin.
    cbn [Nat.add match_blocks].
    destruct (find_longest_match a b alo ahi blo bhi) as [[i j] k].
    destruct Hin as (Hi & Hj & Hk & Hik & Hjk). simpl in Hweight.
    destruct (Z.eqb_spec k 0) as [-> | Hnz]; [apply IH; [assumption | lia]|].
    apply IH.
    + destruct (Z.ltb_spec alo i), (Z.ltb_spec blo j),
        (Z.ltb_spec (i + k) ahi), (Z.ltb_spec (j + k) bhi); cbn [andb];
        repeat (constructor; [split; lia|]); assumption.
    + destruct (Z.ltb_spec alo i), (Z.ltb_spec blo j),
        (Z.ltb_spec (i + k) ahi), (Z.ltb_spec (j + k) bhi); cbn [andb];
        simpl; lia.
Qed.

(** [get_matching_blocks] runs its loop to the end. *)
Lemma get_matching_blocks_turns a b extra :
  match_blocks a b (2 * length a + 1 + extra) [(0, len a, 0, len b)] []
  = match_blocks a b (2 * length a + 1) [(0, len a, 0, len b)] [].
Proof.
  apply match_blocks_enough.
  - constructor; [|constructor]. unfold block_ok, len. lia.
  - unfold len. simpl. lia.
Qed.

End DifflibFacts.

(** ** The result of [compare] *)

(** C4. [compare], run on a fresh comparator, returns, and in its result
    [only_in_path1], [only_in_path2] and the keys of [diff_files] are
    pairwise disjoint. *)
Theorem result_sets_pairwise_disjoint
  (fnmatch : string -> string -> bool)
  (unified_diff : list string -> list string -> string -> string -> list string)
  (fs : FileSystem) (self : ProjectComparator) :
  exists st,
    compare fnmatch unified_diff fs self init_results = Ok st
    /\ only_in_path1 st ## only_in_path2 st
    /\ only_in_path1 st ## dom (diff_files st)
    /\ only_in_path2 st ## dom (diff_files st).
Proof.
  destruct (compare_spec fnmatch unified_diff fs self init_results)
    as (st & Hrun & H1 & H2 & Hd).
  exists st. split; [assumption|]. rewrite H1, H2.
  assert (Hdom : forall q, q ∈ dom (diff_files st) ->
            q ∈ _get_relative_files fnmatch fs self (path1 self)
                ∩ _get_relative_files fnmatch fs self (path2 self)).
  { intros q Hq. apply elem_of_dom in Hq as [d Hq]. rewrite Hd in Hq.
    destruct (decide _) as [Hin | Hout]; [assumption|].
    simpl in Hq. rewrite lookup_empty in Hq. discriminate Hq. }
  repeat split; intros q Hq Hq'; try apply Hdom in Hq';
    apply elem_of_difference in Hq as [Hq Hnq];
    try apply elem_of_difference in Hq' as [Hq' _];
    try apply elem_of_intersection in Hq' as [Hq1 Hq2];
    contradiction.
Qed.

(** C3. When reading either file of a common path fails, [compare] still
    returns; the path is mapped to the single line made of the error marker
    and the description of the failure; it is in neither [only_in_path1] nor
    [only_in_path2]; no exception leaves [_compare_file_content], for any
    path; and every common path, the others included, is mapped to its own
    record or absent as its own comparison says. *)
Theorem read_failure_is_recorded
  (fnmatch : string -> string -> bool)
  (unified_diff : list string -> list string -> string -> string -> list string)
  (fs : FileSystem) (self : ProjectComparator) (rel_path : string) (e : exn) :
  rel_path ∈ _get_relative_files fnmatch fs self (path1 self) ->
  rel_path ∈ _get_relative_files fnmatch fs self (path2 self) ->
  fs_read fs (path_join (path1 self) rel_path) = Raise e
  \/ ((exists data, fs_read fs (path_join (path1 self) rel_path) = Ok data)
      /\ fs_read fs (path_join (path2 self) rel_path) = Raise e) ->
  exists st,
    compare fnmatch unified_diff fs self init_results = Ok st
    /\ diff_files st !! rel_path = Some [error_line e]
    /\ (rel_path ∉ only_in_path1 st)
    /\ (rel_path ∉ only_in_path2 st)
    /\ (forall q, exists diff,
          _compare_file_content unified_diff fs self q = Ok diff)
    /\ (forall q,
          q ∈ _get_relative_files fnmatch fs self (path1 self) ->
          q ∈ _get_relative_files fnmatch fs self (path2 self) ->
          diff_files st !! q = diff_record unified_diff fs self q).
Proof.
  intros Hin1 Hin2 Hfail.
  destruct (compare_spec fnmatch unified_diff fs self init_results)
    as (st & Hrun & H1 & H2 & Hd).
  assert (Hcommon : forall q,
            q ∈ _get_relative_files fnmatch fs self (path1 self) ->
            q ∈ _get_relative_files fnmatch fs self (path2 self) ->
            diff_files st !! q = diff_record unified_diff fs self q).
  { intros q Hq1 Hq2.
    rewrite Hd, decide_True by (apply elem_of_intersection; by split).
    destruct (diff_record unified_diff fs self q); [reflexivity|].
    apply lookup_empty. }
  exists st. split; [assumption|]. split.
  - rewrite Hcommon by assumption. unfold diff_record.
    destruct Hfail as [Hleft | [[data Hleft] Hright]].
    + by rewrite (content_left_fails _ _ _ _ _ Hleft).
    + by rewrite (content_right_fails _ _ _ _ _ _ Hleft Hright).
  - rewrite H1, H2. repeat split; [| | apply content_total | assumption].
    + intros [_ Hout]%elem_of_difference. contradiction.
    + intros [_ Hout]%elem_of_difference. contradiction.
Qed.

(** The witness of C3: [x.txt] cannot be opened on the left. *)
Lemma read_failure_is_recorded_witness :
  exists st,
    compare posix_fnmatch Difflib.unified_diff denied_fs (plain "/A" "/B") init_results
      = Ok st
    /\ diff_files st !! "x.txt"
       = Some ["ERROR: File could not be compared - "
               +:+ "[Errno 13] Permission denied: '/A/x.txt'"]
    /\ ("x.txt" ∉ only_in_path1 st)
    /\ ("x.txt" ∉ only_in_path2 st).
Proof.
  destruct (read_failure_is_recorded posix_fnmatch Difflib.unified_diff denied_fs
              (plain "/A" "/B") "x.txt"
              (Exception "[Errno 13] Permission denied: '/A/x.txt'"))
    as (st & Hrun & Hrec & Hleft & Hright & _).
  - compute_done.
  - compute_done.
  - left. reflexivity.
  - exists st. repeat split; assumption.
Defined.

(** When the diff of two line sequences is empty, the path is absent from
    [diff_files]; and no path is ever mapped to the empty sequence. *)
Lemma no_record_when_diff_empty
  (fnmatch : string -> string -> bool)
  (unified_diff : list string -> list string -> string -> string -> list string)
  (fs : FileSystem) (self : ProjectComparator)
  (rel_path : string) (lines1 lines2 : list string) :
  rel_path ∈ _get_relative_files fnmatch fs self (path1 self) ->
  rel_path ∈ _get_relative_files fnmatch fs self (path2 self) ->
  readlines Ignore (fs_read fs (path_join (path1 self) rel_path)) = Ok lines1 ->
  readlines Ignore (fs_read fs (path_join (path2 self) rel_path)) = Ok lines2 ->
  unified_diff lines1 lines2
    ("Project1/" +:+ rel_path) ("Project2/" +:+ rel_path) = [] ->
  exists st,
    compare fnmatch unified_diff fs self init_results = Ok st
    /\ diff_files st !! rel_path = None
    /\ forall q, diff_files st !! q ≠ Some [].
Proof.
  intros Hin1 Hin2 Hread1 Hread2 Hsame.
  destruct (compare_spec fnmatch unified_diff fs self init_results)
    as (st & Hrun & _ & _ & Hd).
  exists st. split; [assumption|]. split.
  - rewrite Hd, decide_True by (apply elem_of_intersection; by split).
    unfold diff_record.
    rewrite (content_both_read _ _ _ _ _ _ Hread1 Hread2), Hsame. simpl.
    apply lookup_empty.
  - intros q. rewrite Hd. simpl. rewrite lookup_empty.
    destruct (decide _); [|discriminate].
    pose proof (record_not_empty unified_diff fs self q) as Hne.
    destruct (diff_record unified_diff fs self q); [assumption | discriminate].
Qed.

(** C9. A common path whose two files read as the same lines has no
    DiffRecord: [compare] returns and the path is absent from [diff_files];
    and no path is ever mapped to the empty sequence. *)
Theorem identical_files_have_no_record
  (fnmatch : string -> string -> bool)
  (fs : FileSystem) (self : ProjectComparator)
  (rel_path : string) (lines : list string) :
  rel_path ∈ _get_relative_files fnmatch fs self (path1 self) ->
  rel_path ∈ _get_relative_files fnmatch fs self (path2 self) ->
  readlines Ignore (fs_read fs (path_join (path1 self) rel_path)) = Ok lines ->
  readlines Ignore (fs_read fs (path_join (path2 self) rel_path)) = Ok lines ->
  exists st,
    compare fnmatch Difflib.unified_diff fs self init_results = Ok st
    /\ diff_files st !! rel_path = None
    /\ forall q, diff_files st !! q ≠ Some [].
Proof.
  intros Hin1 Hin2 Hread1 Hread2.
  apply no_record_when_diff_empty with lines lines; try assumption.
  apply DifflibFacts.unified_diff_same.
Qed.

(** The witness of C9: [same.txt] reads ["hello\n"] under both roots. *)
Lemma identical_files_have_no_record_witness :
  exists st,
    compare posix_fnmatch Difflib.unified_diff scenario_fs (plain "/A" "/B")
      init_results = Ok st
    /\ diff_files st !! "same.txt" = None.
Proof.
  destruct (identical_files_have_no_record posix_fnmatch
              scenario_fs (plain "/A" "/B") "same.txt" [hello])
    as (st & Hrun & Habsent & _).
  - compute_done.
  - compute_done.
  - reflexivity.
  - reflexivity.
  - exists st. split; assumption.
Defined.

(** ** Permissive decoding *)

(** C2, as the code has it. The two files of a path are read as text, line
    by line, with [errors='ignore']: decoding never raises; bytes that are
    no UTF-8 are dropped, nothing being put in their place, so the text is
    the input with some bytes left out, and is the strictly decoded text
    where there is one.  Two files whose bytes can be read are therefore
    always line-diffed: the result of [_compare_file_content] is the
    unified diff of their lines (absent when it is empty), never the error
    line. *)
Theorem undecodable_bytes_are_dropped
  (unified_diff : list string -> list string -> string -> string -> list string)
  (fs : FileSystem) (self : ProjectComparator) (rel_path : string) :
  (forall data, exists text,
     utf8_decode Ignore data = Ok text
     /\ sublist (list_ascii_of_string text) (list_ascii_of_string data)
     /\ forall t, utf8_decode Strict data = Ok t -> text = t)
  /\ (forall data1 data2,
        fs_read fs (path_join (path1 self) rel_path) = Ok data1 ->
        fs_read fs (path_join (path2 self) rel_path) = Ok data2 ->
        exists lines1 lines2,
          readlines Ignore (Ok data1) = Ok lines1
          /\ readlines Ignore (Ok data2) = Ok lines2
          /\ _compare_file_content unified_diff fs self rel_path =
               Ok (let diff :=
                     unified_diff lines1 lines2
                       ("Project1/" +:+ rel_path) ("Project2/" +:+ rel_path) in
                   if 0 <? Z.of_nat (length diff) then Some diff else None)).
Proof.
  split.
  - intros data. unfold utf8_decode.
    destruct (decode_ignore_total data (Copy 0)) as (text & Hdec & Hsub).
    exists text. repeat split; try assumption.
    intros t Ht. apply decode_strict_ignore in Ht. congruence.
  - intros data1 data2 H1 H2.
    destruct (readlines_ignore_ok data1) as [lines1 Hl1].
    destruct (readlines_ignore_ok data2) as [lines2 Hl2].
    exists lines1, lines2. repeat split; try assumption.
    apply content_both_read; [by rewrite H1 | by rewrite H2].
Qed.

(** The witness of the amended C2: the left [x.txt] starts with a byte that
    is no UTF-8, and is line-diffed against the right one. *)
Lemma undecodable_bytes_are_dropped_witness :
  exists lines1 lines2,
    readlines Ignore (Ok stray_byte) = Ok lines1
    /\ readlines Ignore (Ok "a") = Ok lines2
    /\ _compare_file_content Difflib.unified_diff stray_byte_fs (plain "/A" "/B")
         "x.txt" =
       Ok (let diff :=
             Difflib.unified_diff lines1 lines2
               ("Project1/" +:+ "x.txt") ("Project2/" +:+ "x.txt") in
           if 0 <? Z.of_nat (length diff) then Some diff else None).
Proof.
  exact (proj2 (undecodable_bytes_are_dropped Difflib.unified_diff stray_byte_fs
                  (plain "/A" "/B") "x.txt")
           stray_byte "a" eq_refl eq_refl).
Defined.

(** C2 as stated fails: the byte [0xFF] before [a] is dropped, not replaced.
    The file reads as the line [a], where replacement would give U+FFFD
    followed by [a]; and compared with a file holding just [a] it shows no
    difference, where the two texts would differ under replacement. *)
Lemma undecodable_bytes_are_not_replaced :
  readlines Ignore (Ok stray_byte) = Ok ["a"]
  /\ readlines Replace (Ok stray_byte) = Ok [replacement_char +:+ "a"]
  /\ _compare_file_content Difflib.unified_diff stray_byte_fs (plain "/A" "/B") "x.txt"
     = Ok None
  /\ ~ (forall data, readlines Ignore (Ok data) = readlines Replace (Ok data)).
Proof.
  repeat split; try reflexivity.
  intros H. specialize (H stray_byte). discriminate H.
Qed.

(** ** The scenarios of the specification, run *)

(** [x.txt] holds ["hello\n"] on the left and ["hello\nworld\n"] on the
    right: one diff, with the one inserted line, and nothing on one side
    only. *)
Example scenario_appended_line :
  exists st,
    compare posix_fnmatch Difflib.unified_diff scenario_fs (plain "/A" "/B")
      init_results = Ok st
    /\ only_in_path1 st = ∅
    /\ only_in_path2 st = ∅
    /\ diff_files st =
         {[ "x.txt" :=
              ["--- Project1/x.txt"; "+++ Project2/x.txt"; "@@ -1 +1,2 @@";
               " " +:+ hello; "+world" +:+ String LF ""] ]}.
Proof. eexists. repeat split; vm_compute; reflexivity. Qed.

(** [a.log] is on the left only and [.log] is ignored: the file is filtered
    out before the sets are subtracted; [sub/keep.py] is on the left only. *)
Example scenario_left_only :
  exists st,
    compare posix_fnmatch Difflib.unified_diff left_only_fs
      {| path1 := "/A"; path2 := "/B"; ignore_ext := {[ ".log" ]};
         only_ext := ∅; ignore_dirs := ∅; ignore_files := ∅ |}
      init_results = Ok st
    /\ only_in_path1 st = {[ "sub/keep.py" ]}
    /\ only_in_path2 st = ∅
    /\ diff_files st = ∅.
Proof. eexists. repeat split; vm_compute; reflexivity. Qed.

(** * Further properties *)

(** ** [difflib]: an empty diff means equal sequences *)

Module DifflibSound.
Import Difflib DifflibBlocks DifflibFacts.

Lemma scan_row_matches a b prev i blo bhi :
  (forall j v, prev !! j = Some v ->
     forall t, 0 <= t < v -> item a (i - 1 - t) = item b (j - t)) ->
  forall js new best new' best',
    (forall j, j ∈ js -> item b j = item a i) ->
    (forall j v, new !! j = Some v ->
       forall t, 0 <= t < v -> item a (i - t) = item b (j - t)) ->
    matches a b best ->
    scan_row prev i blo bhi js new best = (new', best') ->
    (forall j v, new' !! j = Some v ->
       forall t, 0 <= t < v -> item a (i - t) = item b (j - t))
    /\ matches a b best'.
Proof.
  intros Hprev. induction js as [|j js IH];
    intros new [[besti bestj] bestsize] new' best' Hjs Hnew Hbest Hrun;
    simpl in Hrun.
  - injection Hrun as <- <-. by split.
  - assert (Hjs' : forall j0, j0 ∈ js -> item b j0 = item a i).
    { intros j0 Hj0. apply Hjs. by right. }
    destruct (Z.ltb_spec j blo) as [? | Hlo]; [by apply IH in Hrun|].
    destruct (Z.leb_spec bhi j) as [? | Hhi];
      [injection Hrun as <- <-; by split|].
    set (k := default 0 (prev !! (j - 1)) + 1) in *.
    assert (Hk : forall t, 0 <= t < k -> item a (i - t) = item b (j - t)).
    { intros t Ht. destruct (decide (t = 0)) as [-> | Hnz].
      - rewrite !Z.sub_0_r. symmetry. apply Hjs. by left.
      - subst k. destruct (prev !! (j - 1)) as [v|] eqn:E; simpl in Ht; [|lia].
        replace (i - t) with (i - 1 - (t - 1)) by lia.
        replace (j - t) with (j - 1 - (t - 1)) by lia.
        apply (Hprev _ _ E). lia. }
    apply IH in Hrun; [assumption | assumption | |].
    + intros j0 v. destruct (decide (j = j0)) as [<- | Hne].
      * rewrite lookup_insert_eq. intros [= <-]. assumption.
      * rewrite lookup_insert_ne by assumption. apply Hnew.
    + destruct (Z.ltb_spec bestsize k); [|assumption].
      intros t Ht. replace (i - k + 1 + t) with (i - (k - 1 - t)) by lia.
      replace (j - k + 1 + t) with (j - (k - 1 - t)) by lia. apply Hk. lia.
Qed.

Lemma b2j_item b elt j : j ∈ b2j b elt -> item b j = elt.
Proof.
  unfold b2j. destruct (is_popular b elt).
  - intros H. by apply not_elem_of_nil in H.
  - intros H. apply indices_from_spec in H as [_ H].
    by rewrite Z.sub_0_r in H.
Qed.

Lemma scan_rows_matches a b blo bhi : forall count i j2len best,
  (forall j v, j2len !! j = Some v ->
     forall t, 0 <= t < v -> item a (i - 1 - t) = item b (j - t)) ->
  matches a b best ->
  matches a b (scan_rows a b blo bhi count i j2len best).
Proof.
  induction count as [|count IH]; intros i j2len best Hrow Hbest; simpl;
    [assumption|].
  destruct (scan_row j2len i blo bhi (b2j b (item a i)) ∅ best)
    as [new best'] eqn:Hrun.
  apply (scan_row_matches a b) in Hrun as [Hnew Hbest']; try assumption.
  - apply IH; [|assumption]. intros j v Hj t Ht.
    replace (i + 1 - 1 - t) with (i - t) by lia. by apply (Hnew j v).
  - intros j Hj. by apply b2j_item.
  - intros j v Hj. by rewrite lookup_empty in Hj.
Qed.

Lemma extend_down_matches a b alo blo junk : forall steps best,
  matches a b best ->
  matches a b (extend_down a b alo blo junk steps best).
Proof.
  induction steps as [|steps IH]; intros [[besti bestj] bestsize] Hbest;
    simpl; [assumption|].
  destruct (_ && _) eqn:Hguard; [|assumption].
  apply andb_true_iff in Hguard as [_ Heq%String.eqb_eq].
  apply IH. intros t Ht. destruct (decide (t = 0)) as [-> | Hnz].
  - by rewrite !Z.add_0_r.
  - replace (besti - 1 + t) with (besti + (t - 1)) by lia.
    replace (bestj - 1 + t) with (bestj + (t - 1)) by lia.
    apply Hbest. lia.
Qed.

Lemma extend_up_matches a b ahi bhi junk : forall steps best,
  matches a b best ->
  matches a b (extend_up a b ahi bhi junk steps best).
Proof.
  induction steps as [|steps IH]; intros [[besti bestj] bestsize] Hbest;
    simpl; [assumption|].
  destruct (_ && _) eqn:Hguard; [|assumption].
  apply andb_true_iff in Hguard as [_ Heq%String.eqb_eq].
  apply IH. intros t Ht. destruct (decide (t = bestsize)) as [-> | Hne].
  - assumption.
  - apply Hbest. lia.
Qed.

(** The lines of the match found are the same in both sequences. *)
Lemma find_longest_match_matches a b alo ahi blo bhi :
  matches a b (find_longest_match a b alo ahi blo bhi).
Proof.
  unfold find_longest_match.
  apply extend_up_matches, extend_down_matches, extend_up_matches,
    extend_down_matches, scan_rows_matches.
  - intros j v Hj. by rewrite lookup_empty in Hj.
  - intros t Ht. lia.
Qed.

Lemma match_blocks_valid a b : forall turns queue blocks,
  Forall (block_in a b) queue ->
  Forall (valid_match a b) blocks ->
  Forall (valid_match a b) (match_blocks a b turns queue blocks).
Proof.
  induction turns as [|turns IH]; intros queue blocks Hqueue Hblocks;
    simpl; [assumption|].
  destruct queue as [|[[[alo ahi] blo] bhi] queue]; [assumption|].
  apply Forall_cons in Hqueue as [(Ha0 & Ha & Ha1 & Hb0 & Hb & Hb1) Hqueue].
  pose proof (find_longest_match_within a b alo ahi blo bhi Ha Hb) as Hin.
  pose proof (find_longest_match_matches a b alo ahi blo bhi) as Hm.
  destruct (find_longest_match a b alo ahi blo bhi) as [[i j] k].
  destruct Hin as (Hi & Hj & Hk & Hik & Hjk).
  destruct (Z.eqb_spec k 0) as [-> | Hnz]; [by apply IH|].
  apply IH.
  - destruct (Z.ltb_spec alo i), (Z.ltb_spec blo j),
      (Z.ltb_spec (i + k) ahi), (Z.ltb_spec (j + k) bhi); cbn [andb];
      repeat (constructor; [unfold block_in; lia|]); assumption.
  - apply Forall_app. split; [assumption|]. constructor; [|constructor].
    unfold valid_match. repeat split; try lia. assumption.
Qed.

Lemma insert_match_Forall (P : Match -> Prop) x l :
  P x -> Forall P l -> Forall P (insert_match x l).
Proof.
  intros Hx. induction 1 as [|y l Hy Hl IH]; simpl.
  - by repeat constructor.
  - destruct (match_leb x y); repeat constructor; assumption.
Qed.

Lemma sort_matches_Forall (P : Match -> Prop) l :
  Forall P l -> Forall P (sort_matches l).
Proof.
  induction 1 as [|x l Hx Hl IH]; simpl; [constructor|].
  by apply insert_match_Forall.
Qed.

Lemma valid_match_join a b i j k1 k2 :
  valid_match a b (i, j, k1) ->
  valid_match a b (i + k1, j + k1, k2) ->
  valid_match a b (i, j, k1 + k2).
Proof.
  intros (? & ? & ? & ? & ? & Hm1) (? & ? & ? & ? & ? & Hm2).
  unfold valid_match. repeat split; try lia. intros t Ht.
  destruct (Z.lt_ge_cases t k1) as [Hlt | Hge]; [apply Hm1; lia|].
  replace (i + t) with (i + k1 + (t - k1)) by lia.
  replace (j + t) with (j + k1 + (t - k1)) by lia. apply Hm2. lia.
Qed.

Lemma collapse_valid a b : forall blocks i1 j1 k1 acc,
  Forall (valid_match a b) blocks ->
  k1 = 0 \/ valid_match a b (i1, j1, k1) ->
  Forall (valid_match a b) acc ->
  let '(i1', j1', k1', acc') :=
    fold_left collapse_step blocks (i1, j1, k1, acc) in
  (k1' = 0 \/ valid_match a b (i1', j1', k1'))
  /\ Forall (valid_match a b) acc'.
Proof.
  induction blocks as [|[[i2 j2] k2] blocks IH];
    intros i1 j1 k1 acc Hblocks Hcur Hacc; simpl; [by split|].
  apply Forall_cons in Hblocks as [H2 Hblocks].
  destruct (Z.eqb_spec (i1 + k1) i2) as [<- | Hi];
    [destruct (Z.eqb_spec (j1 + k1) j2) as [<- | Hj]|]; cbn [andb].
  - apply IH; try assumption. right. destruct Hcur as [-> | H1].
    + by rewrite !Z.add_0_r in *.
    + by apply valid_match_join.
  - apply IH; try assumption; [by right|].
    destruct (Z.eqb_spec k1 0); [assumption|].
    apply Forall_app. split; [assumption|]. destruct Hcur; [lia|].
    constructor; [assumption | constructor].
  - apply IH; try assumption; [by right|].
    destruct (Z.eqb_spec k1 0); [assumption|].
    apply Forall_app. split; [assumption|]. destruct Hcur; [lia|].
    constructor; [assumption | constructor].
Qed.

(** The matching blocks: valid ones, then the sentinel. *)
Lemma get_matching_blocks_valid a b :
  exists blocks,
    get_matching_blocks a b = blocks ++ [(len a, len b, 0)]
    /\ Forall (valid_match a b) blocks.
Proof.
  unfold get_matching_blocks.
  pose proof (collapse_valid a b
                (sort_matches
                   (match_blocks a b (2 * length a + 1)
                      [(0, len a, 0, len b)] []))
                0 0 0 []) as H.
  destruct (fold_left collapse_step _ _) as [[[i1 j1] k1] acc].
  destruct H as [Hcur Hacc].
  - apply sort_matches_Forall, match_blocks_valid; [|constructor].
    constructor; [|constructor]. unfold block_in, len. lia.
  - by left.
  - constructor.
  - destruct (Z.eqb_spec k1 0).
    + by exists acc.
    + exists (acc ++ [(i1, j1, k1)]). split; [reflexivity|].
      apply Forall_app. split; [assumption|]. destruct Hcur; [lia|].
      constructor; [assumption | constructor].
Qed.
Lemma opcode_step_grows a b : forall blocks i j answer,
  Forall (valid_match a b) blocks ->
  let '(_, _, answer') := fold_left opcode_step blocks (i, j, answer) in
  (length answer + length blocks <= length answer')%nat.
Proof.
  induction blocks as [|[[ai bj] size] blocks IH]; intros i j answer Hblocks;
    simpl; [lia|].
  apply Forall_cons in Hblocks as [(_ & _ & Hsize & _) Hblocks].
  destruct (Z.eqb_spec size 0) as [? | _]; [lia|].
  match goal with
  | |- context [fold_left opcode_step blocks (?i', ?j', ?ans)] =>
      specialize (IH i' j' ans Hblocks);
      destruct (fold_left opcode_step blocks (i', j', ans))
        as [[i2 j2] answer2];
      assert (S (length answer) <= length ans)%nat
  end.
  { destruct (_ && _); [|destruct (_ <? _); [|destruct (_ <? _)]];
      rewrite ?length_app; simpl; lia. }
  lia.
Qed.

Lemma same_items a b :
  len a = len b ->
  (forall t, 0 <= t < len a -> item a t = item b t) ->
  a = b.
Proof.
  unfold len. intros Hlen Hitems. apply list_eq. intros n.
  destruct (decide (n < length a)%nat) as [Hlt | Hge].
  - rewrite <- (Nat2Z.id n).
    rewrite (item_lookup a), (item_lookup b) by (unfold len; lia).
    f_equal. apply Hitems. lia.
  - rewrite !lookup_ge_None_2 by lia. reflexivity.
Qed.

(** When the opcodes are no more than one [equal], the sequences are the
    same. *)
Lemma get_opcodes_equal_only a b :
  get_opcodes a b = []
  \/ (exists i1 i2 j1 j2, get_opcodes a b = [(Equal, i1, i2, j1, j2)]) ->
  a = b.
Proof.
  unfold get_opcodes.
  destruct (get_matching_blocks_valid a b) as (blocks & -> & Hvalid).
  rewrite fold_left_app.
  pose proof (opcode_step_grows a b blocks 0 0 [] Hvalid) as Hgrows.
  destruct blocks as [|[[ai bj] size] [|block2 blocks]].
  - clear Hgrows. cbn [fold_left opcode_step].
    change (0 =? 0) with true. cbn [app].
    pose proof (Nat2Z.is_nonneg (length a)).
    pose proof (Nat2Z.is_nonneg (length b)).
    destruct (Z.ltb_spec 0 (len a)), (Z.ltb_spec 0 (len b)); cbn [andb];
      intros [Hans | (? & ? & ? & ? & Hans)]; try discriminate Hans.
    apply same_items; unfold len in *; lia.
  - clear Hgrows. apply Forall_cons in Hvalid as [Hv _].
    destruct Hv as (Hai & Hbj & Hsize & Hia & Hjb & Hm).
    cbn [fold_left opcode_step].
    destruct (Z.eqb_spec size 0) as [? | _]; [lia|].
    change (0 =? 0) with true.
    destruct (Z.ltb_spec 0 ai), (Z.ltb_spec 0 bj),
      (Z.ltb_spec (ai + size) (len a)), (Z.ltb_spec (bj + size) (len b));
      cbn [andb app];
      intros [Hans | (? & ? & ? & ? & Hans)]; try discriminate Hans.
    assert (ai = 0) as -> by lia. assert (bj = 0) as -> by lia.
    apply same_items; [lia|]. intros t Ht.
    specialize (Hm t). rewrite !Z.add_0_l in Hm. apply Hm. lia.
  - match goal with
    | |- context [fold_left opcode_step [_] ?inner] =>
        destruct inner as [[i j] answer] eqn:Einner
    end.
    match type of Hgrows with
    | context [fold_left ?f ?l ?s] =>
        assert (Einner' : fold_left f l s = (i, j, answer)) by exact Einner;
        rewrite Einner' in Hgrows
    end.
    cbn [length] in Hgrows. cbn [fold_left opcode_step].
    change (0 =? 0) with true.
    destruct (_ && _); [|destruct (_ <? _); [|destruct (_ <? _)]];
      intros [Hans | (? & ? & ? & ? & Hans)];
      apply (f_equal (@length _)) in Hans;
      rewrite ?length_app in Hans; simpl in Hans; lia.
Qed.

Lemma group_step_fold n : forall codes group yielded,
  (snd (fold_left (group_step n) codes (group, yielded)) = yielded
   /\ fst (fold_left (group_step n) codes (group, yielded)) = group ++ codes)
  \/ (length yielded
      < length (snd (fold_left (group_step n) codes (group, yielded))))%nat.
Proof.
  induction codes as [|[[[[t i1] i2] j1] j2] codes IH];
    intros group yielded; cbn [fold_left group_step fst snd].
  - left. by rewrite List.app_nil_r.
  - destruct (is_equal t && (n + n <? i2 - i1)).
    + right.
      match goal with
      | |- context [fold_left _ codes (?g, ?y)] =>
          destruct (IH g y) as [[Hy _] | Hlt]
      end.
      * eapply Nat.lt_le_trans;
          [|apply Nat.eq_le_incl; symmetry;
            apply (f_equal (@length _)); exact Hy].
        rewrite length_app. simpl. lia.
      * eapply Nat.lt_trans; [|exact Hlt]. rewrite length_app. simpl. lia.
    + destruct (IH (group ++ [(t, i1, i2, j1, j2)]) yielded)
        as [[Hy Hg] | Hlt]; [left | right; exact Hlt].
      split; [exact Hy|]. etrans; [exact Hg|]. by rewrite <- app_assoc.
Qed.

Lemma fix_leading_shape n codes :
  length (fix_leading n codes) = length codes
  /\ map (fun c => fst (fst (fst (fst c)))) (fix_leading n codes)
     = map (fun c => fst (fst (fst (fst c)))) codes.
Proof. by destruct codes as [|[[[[[] i1] i2] j1] j2] rest]. Qed.

Lemma fix_trailing_shape n codes :
  length (fix_trailing n codes) = length codes
  /\ map (fun c => fst (fst (fst (fst c)))) (fix_trailing n codes)
     = map (fun c => fst (fst (fst (fst c)))) codes.
Proof.
  unfold fix_trailing.
  destruct (List.rev codes) as [|[[[[t i1] i2] j1] j2] rest] eqn:E;
    [by split|].
  assert (Hcodes : codes = List.rev rest ++ [(t, i1, i2, j1, j2)]).
  { rewrite <- (rev_involutive codes), E. reflexivity. }
  destruct t; try by split.
  clear E. subst codes. rewrite !length_app, !map_app. by split.
Qed.

(** No group of opcodes: the opcodes are no more than one [equal]. *)
Lemma get_grouped_opcodes_nil a b n :
  get_grouped_opcodes a b n = [] ->
  get_opcodes a b = []
  \/ (exists i1 i2 j1 j2, get_opcodes a b = [(Equal, i1, i2, j1, j2)]).
Proof.
  unfold get_grouped_opcodes.
  set (codes1 := match get_opcodes a b with
                 | [] => [(Equal, 0, 1, 0, 1)]
                 | _ :: _ => get_opcodes a b
                 end).
  set (codes2 := fix_trailing n (fix_leading n codes1)).
  pose proof (group_step_fold n codes2 [] []) as Hfold.
  destruct (fold_left (group_step n) codes2 ([], []))
    as [group yielded].
  cbn [fst snd] in Hfold. intros Hnil.
  assert (Hshape : length codes2 = length codes1
            /\ map (fun c => fst (fst (fst (fst c)))) codes2
               = map (fun c => fst (fst (fst (fst c)))) codes1).
  { subst codes2.
    destruct (fix_trailing_shape n (fix_leading n codes1)) as [-> ->].
    apply fix_leading_shape. }
  destruct Hshape as [Hlen Htags].
  assert (Hcodes2 : codes2 = []
            \/ exists i1 i2 j1 j2, codes2 = [(Equal, i1, i2, j1, j2)]).
  { destruct Hfold as [[-> ->] | Hlt].
    - simpl in Hnil.
      destruct codes2 as [|[[[[[] i1] i2] j1] j2] [|c codes2]];
        try discriminate Hnil; eauto 6.
    - destruct group as [|[[[[[] ?] ?] ?] ?] [|? ?]]; subst;
        try (simpl in Hlt; lia);
        rewrite ?length_app in Hlt; destruct yielded; simpl in *;
        try lia; discriminate Hnil. }
  subst codes1. destruct (get_opcodes a b) as [|c [|c' codes]].
  - by left.
  - right. destruct Hcodes2 as [-> | (i1 & i2 & j1 & j2 & ->)];
      [discriminate Hlen|].
    destruct c as [[[[t ?] ?] ?] ?]. simpl in Htags.
    injection Htags as <-. eauto.
  - destruct Hcodes2 as [-> | (i1 & i2 & j1 & j2 & ->)]; discriminate Hlen.
Qed.

(** An empty diff: the two sequences of lines are the same. *)
Lemma unified_diff_nil a b fromfile tofile :
  unified_diff a b fromfile tofile = [] -> a = b.
Proof.
  unfold unified_diff. intros H.
  apply get_opcodes_equal_only, (get_grouped_opcodes_nil a b 3).
  by destruct (get_grouped_opcodes a b 3).
Qed.

End DifflibSound.

(** ** Line endings and decoding *)

Lemma universal_newlines_to_crlf s :
  PyStr.contains CR s = false ->
  universal_newlines (to_crlf s) = s /\ universal_newlines s = s.
Proof.
  induction s as [|c s IH]; [by split|]. simpl. intros H.
  apply orb_false_iff in H as [Hc Hs]. destruct (IH Hs) as [IH1 IH2].
  destruct (Ascii.eqb c LF) eqn:Elf.
  - apply Ascii.eqb_eq in Elf as ->. simpl. rewrite IH1.
    split; [reflexivity|]. by destruct s; rewrite ?IH2.
  - simpl. rewrite Hc, IH1. split; [reflexivity|].
    by destruct s; rewrite ?IH2.
Qed.

Lemma not_continuation_lf : is_continuation (byte_val LF) = false.
Proof. reflexivity. Qed.

Lemma continuation_not_lf b :
  is_continuation (byte_val b) = true -> Ascii.eqb b LF = false.
Proof.
  intros H. destruct (Ascii.eqb_spec b LF) as [-> | _]; [|reflexivity].
  discriminate H.
Qed.

(** What follows the head byte up to the first byte that is no continuation
    byte decides what the head is. *)
Lemma utf8_classify_crlf ch s :
  utf8_classify ch (bytes_of (to_crlf s)) = utf8_classify ch (bytes_of s).
Proof.
  assert (Hhead : forall c s',
            bytes_of (to_crlf (String c s')) =
              if Ascii.eqb c LF then byte_val CR :: byte_val LF :: bytes_of (to_crlf s')
              else byte_val c :: bytes_of (to_crlf s')).
  { intros c s'. simpl. by destruct (Ascii.eqb c LF). }
  unfold utf8_classify.
  destruct s as [|c1 s]; [reflexivity|]. rewrite Hhead.
  destruct (Ascii.eqb_spec c1 LF) as [-> | _].
  { cbn [bytes_of]. change (is_continuation (byte_val CR)) with false.
    change (is_continuation (byte_val LF)) with false. reflexivity. }
  cbn [bytes_of].
  destruct s as [|c2 s]; [reflexivity|]. rewrite Hhead.
  destruct (Ascii.eqb_spec c2 LF) as [-> | _].
  { cbn [bytes_of]. change (is_continuation (byte_val CR)) with false.
    change (is_continuation (byte_val LF)) with false. reflexivity. }
  cbn [bytes_of].
  destruct s as [|c3 s]; [reflexivity|]. rewrite Hhead.
  destruct (Ascii.eqb_spec c3 LF) as [-> | _].
  { cbn [bytes_of]. change (is_continuation (byte_val CR)) with false.
    change (is_continuation (byte_val LF)) with false. reflexivity. }
  reflexivity.
Qed.

Lemma utf8_classify_cont ch s n :
  utf8_classify ch (bytes_of s) = Valid n
  \/ utf8_classify ch (bytes_of s) = Invalid n ->
  cont_prefix (Nat.pred n) s.
Proof.
  unfold utf8_classify.
  repeat match goal with
         | |- context [if ?c then _ else _] => destruct c eqn:?
         | |- context [match bytes_of ?s with _ => _ end] =>
             destruct s; cbn [bytes_of]
         end;
    intros [[= <-] | [= <-]]; simpl;
    repeat match goal with
           | H : _ || _ = false |- _ => apply orb_false_iff in H as [? ?]
           | H : negb _ = false |- _ => apply negb_false_iff in H
           end; auto.
Qed.

Lemma decode_crlf s : forall p t,
  pending_ok p s ->
  utf8_decode_from Ignore p s = Ok t ->
  utf8_decode_from Ignore p (to_crlf s) = Ok (to_crlf t).
Proof.
  induction s as [|b s IH]; intros p t Hp H.
  - injection H as <-. reflexivity.
  - assert (Hcopy : forall k t,
              cont_prefix k s -> Ascii.eqb b LF = false ->
              (t ← utf8_decode_from Ignore (Copy k) s; Ok (String b t)) = Ok t ->
              (t ← utf8_decode_from Ignore (Copy k) (to_crlf s);
               Ok (String b t)) = Ok (to_crlf t)).
    { intros k u Hk Hb Hu.
      destruct (utf8_decode_from Ignore (Copy k) s) as [u'|] eqn:E;
        [|discriminate Hu].
      injection Hu as <-. rewrite (IH (Copy k) _ Hk E). simpl. by rewrite Hb. }
    destruct (Ascii.eqb b LF) eqn:Elf.
    + apply Ascii.eqb_eq in Elf as ->.
      assert (Hp0 : p = Copy 0 \/ p = Skip 0).
      { destruct p as [[|k] | [|k]]; auto; simpl in Hp;
          destruct Hp as [Hp _]; discriminate Hp. }
      assert (Hrest : exists t', utf8_decode_from Ignore (Copy 0) s = Ok t'
                /\ t = String LF t').
      { destruct Hp0 as [-> | ->]; simpl in H;
          destruct (utf8_decode_from Ignore (Copy 0) s) as [t'|];
          try discriminate H; injection H as <-; eauto. }
      destruct Hrest as (t' & Ht' & ->).
      assert (Hgoal : utf8_decode_from Ignore (Copy 0)
                        (String CR (String LF (to_crlf s)))
                      = Ok (String CR (String LF (to_crlf t')))).
      { change (utf8_decode_from Ignore (Copy 0)
                  (String CR (String LF (to_crlf s))))
          with (t0 ← (t1 ← utf8_decode_from Ignore (Copy 0) (to_crlf s);
                      Ok (String LF t1)); Ok (String CR t0)).
        by rewrite (IH (Copy 0) t' I Ht'). }
      simpl to_crlf. destruct Hp0 as [-> | ->]; exact Hgoal.
    + simpl to_crlf. rewrite Elf.
      destruct p as [[|k] | [|k]]; simpl in Hp; simpl in H |- *.
      * rewrite utf8_classify_crlf.
        destruct (utf8_classify (byte_val b) (bytes_of s)) as [n | n] eqn:E.
        -- apply Hcopy; auto. apply (utf8_classify_cont (byte_val b)). auto.
        -- apply IH; [|assumption].
           apply (utf8_classify_cont (byte_val b)). auto.
      * destruct Hp as [_ Hp]. by apply Hcopy.
      * rewrite utf8_classify_crlf.
        destruct (utf8_classify (byte_val b) (bytes_of s)) as [n | n] eqn:E.
        -- apply Hcopy; auto. apply (utf8_classify_cont (byte_val b)). auto.
        -- apply IH; [|assumption].
           apply (utf8_classify_cont (byte_val b)). auto.
      * destruct Hp as [_ Hp]. by apply IH.
Qed.

(** ** What [compare] records *)

Lemma unified_diff_nil_iff a b fromfile tofile :
  Difflib.unified_diff a b fromfile tofile = [] <-> a = b.
Proof.
  split; [apply DifflibSound.unified_diff_nil|].
  intros ->. apply DifflibFacts.unified_diff_same.
Qed.

(** A diff that is not empty starts with the two file lines, and goes on. *)
Lemma unified_diff_shape a b fromfile tofile :
  Difflib.unified_diff a b fromfile tofile = []
  \/ exists hunks,
       hunks ≠ []
       /\ Difflib.unified_diff a b fromfile tofile =
            ("--- " +:+ fromfile) :: ("+++ " +:+ tofile) :: hunks.
Proof.
  unfold Difflib.unified_diff.
  destruct (Difflib.get_grouped_opcodes a b 3) as [|group groups];
    [by left|].
  right. eexists. split; [|reflexivity]. simpl.
  unfold Difflib.group_lines at 1.
  destruct (Difflib.first_code group) as [[[[? ?] ?] ?] ?].
  destruct (Difflib.last_code group) as [[[[? ?] ?] ?] ?]. discriminate.
Qed.

Lemma readlines_raise_iff raw e :
  readlines Ignore raw = Raise e <-> raw = Raise e.
Proof.
  destruct raw as [data | e']; [|split; intros [= ->]; reflexivity].
  destruct (readlines_ignore_ok data) as [lines ->]. split; discriminate.
Qed.

Section Records.

Variable fnmatch : string -> string -> bool.
Variable fs : FileSystem.
Variable self : ProjectComparator.

Local Abbreviation lines1 p :=
  (readlines Ignore (fs_read fs (path_join (path1 self) p))).
Local Abbreviation lines2 p :=
  (readlines Ignore (fs_read fs (path_join (path2 self) p))).
Local Abbreviation files1 :=
  (_get_relative_files fnmatch fs self (path1 self)).
Local Abbreviation files2 :=
  (_get_relative_files fnmatch fs self (path2 self)).

(** The record of a path, by what reading its two files gives. *)
Lemma record_cases p :
  diff_record Difflib.unified_diff fs self p =
    match lines1 p with
    | Raise e => Some [error_line e]
    | Ok l1 =>
        match lines2 p with
        | Raise e => Some [error_line e]
        | Ok l2 =>
            if decide (l1 = l2) then None
            else Some (Difflib.unified_diff l1 l2
                         ("Project1/" +:+ p) ("Project2/" +:+ p))
        end
    end.
Proof.
  unfold diff_record.
  destruct (lines1 p) as [l1 | e1] eqn:E1.
  - destruct (lines2 p) as [l2 | e2] eqn:E2.
    + rewrite (content_both_read _ _ _ _ _ _ E1 E2). cbv zeta.
      destruct (decide (l1 = l2)) as [-> | Hne].
      * by rewrite DifflibFacts.unified_diff_same.
      * destruct (Difflib.unified_diff l1 l2 _ _) as [|l ls] eqn:Ed;
          [|reflexivity].
        by apply unified_diff_nil_iff in Ed.
    + apply readlines_raise_iff in E2.
      destruct (fs_read fs (path_join (path1 self) p)) as [d1|] eqn:Er;
        [|discriminate E1].
      by rewrite (content_right_fails _ _ _ _ _ _ Er E2).
  - apply readlines_raise_iff in E1.
    by rewrite (content_left_fails _ _ _ _ _ E1).
Qed.

Lemma record_none_iff p :
  diff_record Difflib.unified_diff fs self p = None
  <-> exists l, lines1 p = Ok l /\ lines2 p = Ok l.
Proof.
  rewrite record_cases.
  destruct (lines1 p) as [l1 | e1]; [destruct (lines2 p) as [l2 | e2]|].
  - destruct (decide (l1 = l2)) as [-> | Hne]; split; try done.
    + eauto.
    + intros (l & [= ->] & [= ->]). contradiction.
  - split; [done | intros (l & _ & H); discriminate H].
  - split; [done | intros (l & H & _); discriminate H].
Qed.

(** The fields of a fresh comparator after [compare]. *)
Lemma compare_fresh unified_diff :
  exists st,
    compare fnmatch unified_diff fs self init_results = Ok st
    /\ only_in_path1 st = files1 ∖ files2
    /\ only_in_path2 st = files2 ∖ files1
    /\ forall p,
         diff_files st !! p =
           if decide (p ∈ files1 ∩ files2)
           then diff_record unified_diff fs self p else None.
Proof.
  destruct (compare_spec fnmatch unified_diff fs self init_results)
    as (st & Hrun & H1 & H2 & Hd).
  exists st. repeat split; try assumption. intros p. rewrite Hd.
  destruct (decide _); [|apply lookup_empty].
  destruct (diff_record unified_diff fs self p); [reflexivity|].
  apply lookup_empty.
Qed.

(** The keys of [diff_files] after [compare] on a fresh comparator. *)
Lemma keys_of_fresh st :
  compare fnmatch Difflib.unified_diff fs self init_results = Ok st ->
  forall p,
    p ∈ dom (diff_files st)
    <-> (p ∈ files1) /\ (p ∈ files2)
        /\ ~ exists l, lines1 p = Ok l /\ lines2 p = Ok l.
Proof.
  intros Hrun.
  destruct (compare_fresh Difflib.unified_diff) as (st' & Hrun' & _ & _ & Hd).
  assert (st' = st) as -> by congruence.
  intros p. rewrite elem_of_dom, Hd, <- record_none_iff.
  destruct (decide (p ∈ files1 ∩ files2)) as [Hin | Hout].
  - apply elem_of_intersection in Hin as [Hin1 Hin2].
    rewrite <- not_eq_None_Some. tauto.
  - split; [intros [? H]; discriminate H|].
    intros (Hin1 & Hin2 & _). exfalso. apply Hout.
    by apply elem_of_intersection.
Qed.

(** X1. When both files of a path can be read, [_compare_file_content]
    returns [None] exactly when they read as the same lines: the diff of
    two different lists of lines is never empty. *)
Theorem no_diff_iff_same_lines (p : string) (l1 l2 : list string) :
  lines1 p = Ok l1 ->
  lines2 p = Ok l2 ->
  _compare_file_content Difflib.unified_diff fs self p = Ok None
  <-> l1 = l2.
Proof.
  intros H1 H2. rewrite (content_both_read _ _ _ _ _ _ H1 H2). cbv zeta.
  rewrite <- (unified_diff_nil_iff l1 l2 ("Project1/" +:+ p)
                ("Project2/" +:+ p)).
  destruct (Difflib.unified_diff l1 l2 _ _); simpl; split; congruence.
Qed.

(** X2. After [compare] on a fresh comparator, the keys of [diff_files] are
    the common paths for which a read fails or the two files read as
    different lines. *)
Theorem differing_keys :
  exists st,
    compare fnmatch Difflib.unified_diff fs self init_results = Ok st
    /\ forall p,
         p ∈ dom (diff_files st)
         <-> (p ∈ files1) /\ (p ∈ files2)
             /\ ~ exists l, lines1 p = Ok l /\ lines2 p = Ok l.
Proof.
  destruct (compare_fresh Difflib.unified_diff) as (st & Hrun & _).
  exists st. split; [assumption|]. by apply keys_of_fresh.
Qed.

(** X3. A path scanned under either root that is in none of the three
    result fields is under both roots, and its two files read as the same
    lines. *)
Theorem silence_means_identical :
  exists st,
    compare fnmatch Difflib.unified_diff fs self init_results = Ok st
    /\ forall p,
         p ∈ files1 ∪ files2 ->
         p ∉ only_in_path1 st -> p ∉ only_in_path2 st ->
         p ∉ dom (diff_files st) ->
         (p ∈ files1) /\ (p ∈ files2)
         /\ exists l, lines1 p = Ok l /\ lines2 p = Ok l.
Proof.
  destruct (compare_fresh Difflib.unified_diff) as (st & Hrun & H1 & H2 & Hd).
  exists st. split; [assumption|]. intros p Hin Ho1 Ho2 Hnd.
  rewrite H1 in Ho1. rewrite H2 in Ho2.
  assert (Hin1 : p ∈ files1).
  { destruct (decide (p ∈ files1)); [assumption|].
    exfalso. apply Ho2. apply elem_of_difference.
    apply elem_of_union in Hin as [? | ?]; [contradiction | by split]. }
  assert (Hin2 : p ∈ files2).
  { destruct (decide (p ∈ files2)); [assumption|].
    exfalso. apply Ho1. by apply elem_of_difference. }
  repeat split; try assumption.
  apply record_none_iff. apply not_elem_of_dom in Hnd. rewrite Hd in Hnd.
  rewrite decide_True in Hnd by (by apply elem_of_intersection). exact Hnd.
Qed.

(** X4. A tree compared with itself: nothing is on one side only, and a
    path is in [diff_files] exactly when it was scanned and its file cannot
    be read; it is then mapped to the error line. *)
Theorem self_comparison :
  path1 self = path2 self ->
  exists st,
    compare fnmatch Difflib.unified_diff fs self init_results = Ok st
    /\ only_in_path1 st = ∅
    /\ only_in_path2 st = ∅
    /\ forall p,
         diff_files st !! p =
           match fs_read fs (path_join (path1 self) p) with
           | Raise e =>
               if decide (p ∈ files1) then Some [error_line e] else None
           | Ok _ => None
           end.
Proof.
  intros Hsame.
  destruct (compare_fresh Difflib.unified_diff) as (st & Hrun & H1 & H2 & Hd).
  exists st. split; [assumption|]. rewrite H1, H2, <- Hsame.
  split; [apply difference_diag_L|]. split; [apply difference_diag_L|].
  intros p. rewrite Hd, record_cases, <- Hsame.
  destruct (decide (p ∈ files1)) as [Hin | Hout].
  - rewrite decide_True by (by apply elem_of_intersection).
    destruct (fs_read fs (path_join (path1 self) p)) as [data | e];
      [|reflexivity].
    destruct (readlines_ignore_ok data) as [l ->].
    destruct (decide (l = l)); [reflexivity | contradiction].
  - rewrite decide_False
      by (intros [? _]%elem_of_intersection; contradiction).
    by destruct (fs_read fs (path_join (path1 self) p)).
Qed.

(** X5. What [compare] stores for a path is either the one error line of a
    failed read, or a diff of at least three lines that starts with
    [--- Project1/<path>] and [+++ Project2/<path>]: a record of one line is
    always an error. *)
Theorem record_shape :
  exists st,
    compare fnmatch Difflib.unified_diff fs self init_results = Ok st
    /\ forall p v,
         diff_files st !! p = Some v ->
         (exists e,
            v = [error_line e]
            /\ (fs_read fs (path_join (path1 self) p) = Raise e
                \/ fs_read fs (path_join (path2 self) p) = Raise e))
         \/ (exists hunks,
               hunks ≠ []
               /\ v = ("--- Project1/" +:+ p) :: ("+++ Project2/" +:+ p)
                        :: hunks).
Proof.
  destruct (compare_fresh Difflib.unified_diff) as (st & Hrun & _ & _ & Hd).
  exists st. split; [assumption|]. intros p v. rewrite Hd, record_cases.
  destruct (decide _); [|discriminate].
  destruct (lines1 p) as [l1 | e1] eqn:E1;
    [destruct (lines2 p) as [l2 | e2] eqn:E2|].
  - destruct (decide (l1 = l2)) as [? | Hne]; [discriminate|].
    intros [= <-]. right.
    destruct (unified_diff_shape l1 l2 ("Project1/" +:+ p)
                ("Project2/" +:+ p)) as [Hnil | (hunks & Hh & Heq)].
    + by apply unified_diff_nil_iff in Hnil.
    + by exists hunks.
  - intros [= <-]. left. exists e2. split; [reflexivity|]. right.
    by apply readlines_raise_iff.
  - intros [= <-]. left. exists e1. split; [reflexivity|]. left.
    by apply readlines_raise_iff.
Qed.

End Records.

(** X1 at work: [x.txt] of the scenario. *)
Lemma no_diff_iff_same_lines_witness :
  _compare_file_content Difflib.unified_diff scenario_fs (plain "/A" "/B")
    "x.txt" = Ok None
  <-> [hello] = [hello; "world" +:+ String LF ""].
Proof.
  exact (no_diff_iff_same_lines scenario_fs (plain "/A" "/B") "x.txt"
           [hello] [hello; "world" +:+ String LF ""] eq_refl eq_refl).
Defined.

(** X4 at work: the disk where [x.txt] cannot be opened under [/A], compared
    with itself. *)
Lemma self_comparison_witness :
  exists st,
    compare posix_fnmatch Difflib.unified_diff denied_fs (plain "/A" "/A")
      init_results = Ok st
    /\ only_in_path1 st = ∅
    /\ only_in_path2 st = ∅
    /\ diff_files st !! "x.txt"
       = Some [error_line
                 (Exception "[Errno 13] Permission denied: '/A/x.txt'")]
    /\ diff_files st !! "y.txt" = None.
Proof.
  destruct (self_comparison posix_fnmatch denied_fs (plain "/A" "/A")
              eq_refl) as (st & Hrun & H1 & H2 & Hd).
  exists st. repeat split; try assumption.
  - rewrite Hd. reflexivity.
  - rewrite Hd. reflexivity.
Defined.

Section Reruns.

Variable fnmatch : string -> string -> bool.
Variable unified_diff :
  list string -> list string -> string -> string -> list string.
Variable fs : FileSystem.
Variable self : ProjectComparator.

(** X6. [compare] assigns the two sets anew and only adds to [diff_files]:
    whatever the fields held before, the keys of [diff_files] stay, and a
    second run on the same disk changes nothing. *)
Theorem compare_accumulates (st0 : Results) :
  exists st,
    compare fnmatch unified_diff fs self st0 = Ok st
    /\ only_in_path1 st
       = _get_relative_files fnmatch fs self (path1 self)
         ∖ _get_relative_files fnmatch fs self (path2 self)
    /\ only_in_path2 st
       = _get_relative_files fnmatch fs self (path2 self)
         ∖ _get_relative_files fnmatch fs self (path1 self)
    /\ dom (diff_files st0) ⊆ dom (diff_files st)
    /\ compare fnmatch unified_diff fs self st = Ok st.
Proof.
  destruct (compare_spec fnmatch unified_diff fs self st0)
    as (st & Hrun & H1 & H2 & Hd).
  exists st. repeat split; try assumption.
  - intros p [v Hp]%elem_of_dom. apply elem_of_dom. rewrite Hd.
    destruct (decide _); [|by eexists].
    destruct (diff_record unified_diff fs self p); by eexists.
  - destruct (compare_spec fnmatch unified_diff fs self st)
      as (st' & Hrun' & H1' & H2' & Hd').
    rewrite Hrun'. f_equal. destruct st as [o1 o2 d], st' as [o1' o2' d'].
    simpl in *. subst. f_equal. apply map_eq. intros p.
    rewrite Hd', Hd. destruct (decide _); [|reflexivity].
    by destruct (diff_record unified_diff fs self p).
Qed.

End Reruns.

(** X7. Exchanging the two roots exchanges [only_in_path1] and
    [only_in_path2] and keeps the set of differing paths. *)
Theorem swap_roots_result
  (fnmatch : string -> string -> bool) (fs : FileSystem)
  (self : ProjectComparator) :
  exists st st',
    compare fnmatch Difflib.unified_diff fs self init_results = Ok st
    /\ compare fnmatch Difflib.unified_diff fs (swap_roots self) init_results
       = Ok st'
    /\ only_in_path1 st' = only_in_path2 st
    /\ only_in_path2 st' = only_in_path1 st
    /\ dom (diff_files st') = dom (diff_files st).
Proof.
  destruct (compare_fresh fnmatch fs self Difflib.unified_diff)
    as (st & Hrun & H1 & H2 & _).
  destruct (compare_fresh fnmatch fs (swap_roots self) Difflib.unified_diff)
    as (st' & Hrun' & H1' & H2' & _).
  pose proof (keys_of_fresh fnmatch fs self st Hrun) as Hk.
  pose proof (keys_of_fresh fnmatch fs (swap_roots self) st' Hrun') as Hk'.
  exists st, st'. repeat split; try assumption.
  - by rewrite H1', H2.
  - by rewrite H2', H1.
  - apply set_eq. intros p. rewrite Hk, Hk'.
    change (_get_relative_files fnmatch fs (swap_roots self)
              (path1 (swap_roots self)))
      with (_get_relative_files fnmatch fs self (path2 self)).
    change (_get_relative_files fnmatch fs (swap_roots self)
              (path2 (swap_roots self)))
      with (_get_relative_files fnmatch fs self (path1 self)).
    change (path1 (swap_roots self)) with (path2 self).
    change (path2 (swap_roots self)) with (path1 self).
    split; intros (Ha & Hb & Hc); repeat split; try assumption;
      intros (l & Hl1 & Hl2); apply Hc; by exists l.
Qed.

(** ** The scanned set *)

(** X8. With no option set, the scanned set is made of the paths of all
    the entries that are not directories, in all the directories reached
    from the root through directories that are not symbolic links: nothing
    is left out, and a directory without such an entry leaves no trace. *)
Theorem scan_without_options
  (fnmatch : string -> string -> bool) (fs : FileSystem)
  (self : ProjectComparator) (base_path : string) :
  ignore_ext self = ∅ -> only_ext self = ∅ ->
  ignore_dirs self = ∅ -> ignore_files self = ∅ ->
  forall s,
    s ∈ _get_relative_files fnmatch fs self base_path
    <-> exists root sub kind f,
          real_dir_at (fs_entries fs base_path) root sub
          /\ In (File kind f) sub
          /\ s = path_str (root ++ [f]).
Proof.
  intros He Ho Hd Hf s. rewrite elem_of_get_relative_files. split.
  - intros (root & sub & kind & f & Hreal & _ & Hin & _ & ->).
    by exists root, sub, kind, f.
  - intros (root & sub & kind & f & Hreal & Hin & ->).
    exists root, sub, kind, f. repeat split; try assumption.
    + apply List.Forall_forall. intros d _. apply keep_dir_true.
      rewrite Hd. apply not_elem_of_empty.
    + apply should_ignore_false_iff. rewrite He, Hf. repeat split.
      * intros pattern Hp. by apply not_elem_of_empty in Hp.
      * by left.
      * apply not_elem_of_empty.
Qed.

Lemma scan_without_options_witness :
  "sub/keep.py"
  ∈ _get_relative_files posix_fnmatch left_only_fs (plain "/A" "/B") "/A"
  <-> exists root sub kind f,
        real_dir_at (fs_entries left_only_fs "/A") root sub
        /\ In (File kind f) sub
        /\ "sub/keep.py" = path_str (root ++ [f]).
Proof.
  exact (scan_without_options posix_fnmatch left_only_fs (plain "/A" "/B")
           "/A" eq_refl eq_refl eq_refl eq_refl "sub/keep.py").
Defined.

(** X9. More to ignore, less scanned: when the allow-list is the same and
    each of the three ignore sets grows, the scanned set can only shrink. *)
Theorem more_ignored_less_scanned
  (fnmatch : string -> string -> bool) (fs : FileSystem)
  (self self' : ProjectComparator) (base_path : string) :
  only_ext self' = only_ext self ->
  ignore_ext self ⊆ ignore_ext self' ->
  ignore_dirs self ⊆ ignore_dirs self' ->
  ignore_files self ⊆ ignore_files self' ->
  _get_relative_files fnmatch fs self' base_path
  ⊆ _get_relative_files fnmatch fs self base_path.
Proof.
  intros Ho He Hd Hf s. rewrite !elem_of_get_relative_files.
  intros (root & sub & kind & f & Hreal & Hkept & Hin & Hpass & ->).
  exists root, sub, kind, f. repeat split; try assumption.
  - rewrite List.Forall_forall in *. intros d Hdin.
    apply keep_dir_true. intros Hign.
    apply (proj1 (keep_dir_true self' d) (Hkept d Hdin)). by apply Hd.
  - apply should_ignore_false_iff in Hpass as (Hp & Hallow & Hext).
    apply should_ignore_false_iff. rewrite Ho in Hallow.
    repeat split; [|assumption|].
    + intros pattern Hpat. apply Hp. by apply Hf.
    + intros Hign. apply Hext. by apply He.
Qed.

Lemma more_ignored_less_scanned_witness :
  _get_relative_files posix_fnmatch left_only_fs
    {| path1 := "/A"; path2 := "/B"; ignore_ext := {[ ".log" ]};
       only_ext := ∅; ignore_dirs := {[ "sub" ]}; ignore_files := ∅ |} "/A"
  ⊆ _get_relative_files posix_fnmatch left_only_fs (plain "/A" "/B") "/A".
Proof.
  apply (more_ignored_less_scanned posix_fnmatch left_only_fs
           (plain "/A" "/B")
           {| path1 := "/A"; path2 := "/B"; ignore_ext := {[ ".log" ]};
              only_ext := ∅; ignore_dirs := {[ "sub" ]};
              ignore_files := ∅ |} "/A").
  - reflexivity.
  - simpl. apply empty_subseteq.
  - simpl. apply empty_subseteq.
  - simpl. reflexivity.
Defined.

(** X10. Entries at different places of a tree have different relative
    path strings: the string, which is all [compare] keeps of a file, tells
    the place.  (Names of directory entries do not contain the
    separator.) *)
Theorem path_string_tells_place (entries : list node)
  (ds ds' : path) (f f' : string) :
  names_ok entries = true ->
  file_at entries ds f ->
  file_at entries ds' f' ->
  path_str (ds ++ [f]) = path_str (ds' ++ [f']) ->
  ds = ds' /\ f = f'.
Proof.
  intros Hok Hat Hat' Heq. apply app_inj_tail.
  apply path_str_inj; try assumption.
  - by apply file_at_names_ok with entries.
  - by apply file_at_names_ok with entries.
  - by destruct ds.
  - by destruct ds'.
Qed.

Lemma path_string_tells_place_witness :
  ["sub"] = ["sub"] /\ "keep.py" = "keep.py".
Proof.
  apply (path_string_tells_place
           [File Regular "a.log"; Dir false "sub" [File Regular "keep.py"]]
           ["sub"] ["sub"] "keep.py" "keep.py").
  - reflexivity.
  - eapply file_below; [right; left; reflexivity|].
    eapply file_here. left. reflexivity.
  - eapply file_below; [right; left; reflexivity|].
    eapply file_here. left. reflexivity.
  - reflexivity.
Defined.

(** ** The filter *)









(** X12. The filter looks at the name of a file and never at the directory
    it is in: two files of the same name are both kept or both ignored, so
    no pattern of [ignore_files] can tell one directory from another. *)
Theorem filter_sees_the_name_only
  (fnmatch : string -> string -> bool) (self : ProjectComparator)
  (dir dir' : path) (name : string) :
  _should_ignore fnmatch self (dir ++ [name])
  = _should_ignore fnmatch self (dir' ++ [name]).
Proof.
  unfold _should_ignore, file_ext, path_suffix.
  by rewrite !path_name_last.
Qed.

(** ** Line endings *)

Lemma contains_elem_of c s :
  PyStr.contains c s = true <-> c ∈ list_ascii_of_string s.
Proof.
  induction s as [|a s IH]; simpl.
  - split; [discriminate | by intros ?%not_elem_of_nil].
  - rewrite orb_true_iff, IH, elem_of_cons. split.
    + intros [->%Ascii.eqb_eq | H]; auto.
    + intros [-> | H]; [left; apply Ascii.eqb_refl | by right].
Qed.

(** Reading a file with line feeds, or the same with carriage return, line
    feed, gives the same lines. *)
Lemma readlines_to_crlf data :
  PyStr.contains CR data = false ->
  readlines Ignore (Ok (to_crlf data)) = readlines Ignore (Ok data).
Proof.
  intros Hcr. unfold readlines, utf8_decode.
  destruct (decode_ignore_total data (Copy 0)) as (t & Ht & Hsub).
  rewrite !bind_ok, Ht, (decode_crlf data (Copy 0) t I Ht), !bind_ok.
  assert (Hcrt : PyStr.contains CR t = false).
  { destruct (PyStr.contains CR t) eqn:E; [|reflexivity].
    apply contains_elem_of in E.
    apply (elem_of_sublist _ _ _ E), contains_elem_of in Hsub. congruence. }
  destruct (universal_newlines_to_crlf t Hcrt) as [-> ->]. reflexivity.
Qed.

(** X13. Line endings are not compared: when the two files of a common
    path differ only in that one ends its lines with line feed and the
    other with carriage return, line feed, the path gets no entry in
    [diff_files]. *)
Theorem line_endings_not_compared
  (fnmatch : string -> string -> bool) (fs : FileSystem)
  (self : ProjectComparator) (rel_path data : string) :
  rel_path ∈ _get_relative_files fnmatch fs self (path1 self) ->
  rel_path ∈ _get_relative_files fnmatch fs self (path2 self) ->
  PyStr.contains CR data = false ->
  fs_read fs (path_join (path1 self) rel_path) = Ok data ->
  fs_read fs (path_join (path2 self) rel_path) = Ok (to_crlf data) ->
  exists st,
    compare fnmatch Difflib.unified_diff fs self init_results = Ok st
    /\ diff_files st !! rel_path = None.
Proof.
  intros Hin1 Hin2 Hcr Hr1 Hr2.
  destruct (readlines_ignore_ok data) as [lines Hlines].
  destruct (no_record_when_diff_empty fnmatch Difflib.unified_diff fs self
              rel_path lines lines) as (st & Hrun & Hnone & _);
    try assumption.
  - by rewrite Hr1.
  - by rewrite Hr2, readlines_to_crlf.
  - apply DifflibFacts.unified_diff_same.
  - by exists st.
Qed.

(** X13 at work: ["hello\nworld\n"] against ["hello\r\nworld\r\n"]. *)
Lemma line_endings_not_compared_witness :
  fs_read crlf_fs "/B/x.txt"
  = Ok ("hello" +:+ String CR (String LF "")
        +:+ "world" +:+ String CR (String LF ""))
  /\ exists st,
       compare posix_fnmatch Difflib.unified_diff crlf_fs (plain "/A" "/B")
         init_results = Ok st
       /\ diff_files st !! "x.txt" = None.
Proof.
  split; [reflexivity|].
  apply (line_endings_not_compared posix_fnmatch crlf_fs (plain "/A" "/B")
           "x.txt" hello_world).
  - compute_done.
  - compute_done.
  - reflexivity.
  - reflexivity.
  - reflexivity.
Defined.

(** ** [sorted] *)

Lemma length_sorted (s : gset string) : length (sorted s) = size s.
Proof.
  unfold sorted. rewrite <- (Permutation_length (StrSort.Permuted_sort _)).
  reflexivity.
Qed.


(** ** The report *)

Lemma set_truthy_true (s : gset string) :
  set_truthy s = true -> exists n, size s = S n.
Proof.
  unfold set_truthy. intros H%bool_decide_eq_true.
  destruct (size s) eqn:E; [|eauto].
  exfalso. apply H. by apply size_empty_iff, leibniz_equiv in E.
Qed.

Lemma set_truthy_false (s : gset string) :
  set_truthy s = false -> s = ∅.
Proof. apply set_truthy_empty. Qed.

Lemma dict_truthy_dom (d : gmap string (list string)) :
  dict_truthy d = set_truthy (dom d).
Proof.
  unfold dict_truthy, set_truthy. apply bool_decide_ext.
  by rewrite dom_empty_iff_L.
Qed.

(** X15. The report has seven header lines and, for each of the three
    fields that is not empty, a title, a rule, one line per file and an
    empty line: when the three are empty it is the header alone. *)
Theorem report_length (self : ProjectComparator) (st : Results) :
  length (report_lines self st)
  = (7 + section_len (size (only_in_path1 st))
     + section_len (size (only_in_path2 st))
     + section_len (size (diff_files st)))%nat.
Proof.
  unfold report_lines. rewrite dict_truthy_dom, <- (size_dom (diff_files st)).
  destruct (set_truthy (only_in_path1 st)) eqn:E1;
    destruct (set_truthy (only_in_path2 st)) eqn:E2;
    destruct (set_truthy (dom (diff_files st))) eqn:E3;
    repeat match goal with
           | H : set_truthy _ = true |- _ =>
               apply set_truthy_true in H as [? H]
           | H : set_truthy _ = false |- _ =>
               apply set_truthy_false in H
           end;
    rewrite ?length_app, ?length_map, ?length_sorted;
    repeat match goal with
           | H : size _ = _ |- _ => rewrite H
           | H : _ = ∅ |- _ => rewrite H, size_empty
           end;
    simpl; lia.
Qed.

Lemma in_bullets f l : In (bullet f) (map bullet l) <-> In f l.
Proof.
  rewrite in_map_iff. split; [|by exists f].
  intros (g & Heq & Hin). unfold bullet in Heq.
  by apply String.app_inj in Heq as ->.
Qed.

Lemma in_sorted f (s : gset string) : In f (sorted s) <-> f ∈ s.
Proof. by rewrite <- list_elem_of_In, elem_of_sorted. Qed.

(** X16. The lines of the report that name a file are those of the files
    of the three fields: [f"  ➤ {file}"] is a line of the report exactly
    when [file] is in [only_in_path1], in [only_in_path2] or a key of
    [diff_files]. *)
Theorem report_names_the_files (self : ProjectComparator) (st : Results)
  (file : string) :
  In (bullet file) (report_lines self st)
  <-> (file ∈ only_in_path1 st) \/ (file ∈ only_in_path2 st)
      \/ (file ∈ dom (diff_files st)).
Proof.
  unfold report_lines. rewrite dict_truthy_dom.
  destruct (set_truthy (only_in_path1 st)) eqn:E1;
    destruct (set_truthy (only_in_path2 st)) eqn:E2;
    destruct (set_truthy (dom (diff_files st))) eqn:E3;
    repeat match goal with
           | H : set_truthy _ = false |- _ =>
               apply set_truthy_false in H; rewrite H
           end;
    rewrite ?in_app_iff, ?in_bullets, ?in_sorted; simpl;
    (split;
     [ intros H;
       repeat match goal with
              | H : _ \/ _ |- _ => destruct H as [H | H]
              | H : False |- _ => destruct H
              | H : _ = bullet _ |- _ => discriminate H
              end; auto
     | intros [H | [H | H]]; try (by apply not_elem_of_empty in H);
       tauto ]).
Qed.

(** X17. The report shows which files differ and never how: it depends on
    [diff_files] through its set of keys only. *)
Theorem report_keys_only (self : ProjectComparator) (st st' : Results) :
  only_in_path1 st = only_in_path1 st' ->
  only_in_path2 st = only_in_path2 st' ->
  dom (diff_files st) = dom (diff_files st') ->
  report_lines self st = report_lines self st'.
Proof.
  intros H1 H2 Hd. unfold report_lines.
  rewrite !dict_truthy_dom, <- !(size_dom (diff_files _)), H1, H2, Hd.
  reflexivity.
Qed.

(** X17 at work: an error line or a diff under [x.txt], one report. *)
Lemma report_keys_only_witness :
  report_lines (plain "/A" "/B")
    (one_record [error_line (Exception "[Errno 13] Permission denied")])
  = report_lines (plain "/A" "/B")
      (one_record (Difflib.unified_diff [hello] [hello; hello]
                     "Project1/x.txt" "Project2/x.txt")).
Proof.
  apply (report_keys_only (plain "/A" "/B")
           (one_record [error_line (Exception "[Errno 13] Permission denied")])
           (one_record (Difflib.unified_diff [hello] [hello; hello]
                          "Project1/x.txt" "Project2/x.txt"))).
  - reflexivity.
  - reflexivity.
  - unfold one_record. cbn [diff_files]. by rewrite !dom_singleton_L.
Defined.

(** ** [print_summary] *)

(** Two strings that differ within their first eight bytes. *)
Ltac differ_early H :=
  apply (f_equal (String.substring 0 8)) in H; vm_compute in H;
  discriminate H.

(** X18. [print_summary] announces identical folders exactly when the three
    result fields are empty: with the colours of [ansi], the line is among
    those printed if and only if nothing is on one side only and no path
    has a record. *)
Theorem identical_announced (st : Results) (output_file : option string) :
  In identical_line
     (printed (fst (print_summary ansi st output_file empty_console)))
  <-> only_in_path1 st = ∅ /\ only_in_path2 st = ∅ /\ diff_files st = ∅.
Proof.
  unfold print_summary, mbind, io_bind, mret, io_ret, print.
  rewrite dict_truthy_dom.
  destruct (set_truthy (only_in_path1 st)) eqn:E1;
    destruct (set_truthy (only_in_path2 st)) eqn:E2;
    destruct (set_truthy (dom (diff_files st))) eqn:E3;
    destruct (str_truthy output_file);
    cbn [negb andb fst snd printed written empty_console app In];
    repeat match goal with
           | H : set_truthy _ = true |- _ =>
               apply set_truthy_true in H as [? H]
           | H : set_truthy _ = false |- _ =>
               apply set_truthy_false in H
           end;
    (split;
     [ intros H;
       repeat match goal with
              | H : _ \/ _ |- _ => destruct H as [H | H]
              | H : False |- _ => destruct H
              end;
       try (exfalso; differ_early H);
       repeat split; try assumption; by apply dom_empty_iff_L
     | intros (H1 & H2 & H3); try rewrite H1 in *; try rewrite H2 in *;
       try rewrite H3 in *;
       try (rewrite ?dom_empty_L, ?size_empty in *; discriminate);
       unfold identical_line; tauto ]).
Qed.

(** ** [main] *)

Section Main.

Variable fnmatch : string -> string -> bool.
Variable unified_diff :
  list string -> list string -> string -> string -> list string.
Variable colors : Colorama.
Variable os : OS.






(** X21. The values of an option are a set: [main] does the same for two
    command lines that differ only in the order and the repetitions of the
    values given to [--ignore-ext], [--only-ext], [--ignore-dirs] and
    [--ignore-files]. *)
Theorem options_are_sets (args args' : Args) :
  args_path1 args = args_path1 args' ->
  args_path2 args = args_path2 args' ->
  args_output args = args_output args' ->
  (forall x, x ∈ args_ignore_ext args <-> x ∈ args_ignore_ext args') ->
  (forall x, x ∈ args_only_ext args <-> x ∈ args_only_ext args') ->
  (forall x, x ∈ args_ignore_dirs args <-> x ∈ args_ignore_dirs args') ->
  (forall x, x ∈ args_ignore_files args <-> x ∈ args_ignore_files args') ->
  main fnmatch unified_diff colors os args
  = main fnmatch unified_diff colors os args'.
Proof.
  intros Hp1 Hp2 Hout He Ho Hd Hf.
  assert (Hc : comparator_of os args = comparator_of os args').
  { unfold comparator_of, __init__, set_of. cbn [default].
    rewrite Hp1, Hp2.
    f_equal; apply set_eq; intros x; rewrite !elem_of_list_to_set; auto. }
  unfold main. fold (comparator_of os args) (comparator_of os args').
  unfold main_body. by rewrite Hp1, Hp2, Hout, Hc.
Qed.

End Main.

(** X21 at work: [--ignore-ext .log .tmp .log] and
    [--ignore-ext .tmp .log]. *)
Lemma options_are_sets_witness :
  main posix_fnmatch Difflib.unified_diff ansi (plain_os scenario_fs)
    (ignoring_ext [".log"; ".tmp"; ".log"])
  = main posix_fnmatch Difflib.unified_diff ansi (plain_os scenario_fs)
      (ignoring_ext [".tmp"; ".log"]).
Proof.
  apply (options_are_sets posix_fnmatch Difflib.unified_diff ansi
           (plain_os scenario_fs)
           (ignoring_ext [".log"; ".tmp"; ".log"])
           (ignoring_ext [".tmp"; ".log"])).
  - reflexivity.
  - reflexivity.
  - reflexivity.
  - intros x. cbn [args_ignore_ext ignoring_ext].
    rewrite !elem_of_cons, !elem_of_nil. tauto.
  - reflexivity.
  - reflexivity.
  - reflexivity.
Defined.
